(** * Sales analytics: schema inference, cleaned view, aggregates, chat router

    A shallow embedding of the analytics core of the repository:

    - [inferCanonical] (src/app/api/upload/route.ts and the copy in
      components/UploadInference.tsx), the column-name mapper;
    - [routeChatQuestion] (components/UploadInference.tsx), the chat router;
    - [materializeCleanedView], [getSummary], [getTimeseries], [getProducts],
      [getGeo], [getChannels], [getAnomalies] and [buildColumnMap]
      (lib/analytics), which send SQL text to a DuckDB connection;
    - [runAggregates], [buildInsightPayload], the tables of
      [routeChatQuestion], the upload history ([upsertHistoryEntry],
      [updateHistoryEntry], [deleteHistoryEntry]), [quoteIdent] and
      [barWidth] (components/UploadInference.tsx), and the request checks of
      the insights route.

    Modelling conventions.

    - A JavaScript string is a [string] (a sequence of 8-bit characters);
      [toLowerCase] and [trim] are the ASCII restrictions of the JavaScript
      methods.
    - A JavaScript number and a SQL DOUBLE are real numbers ([R]): sums,
      products, quotients and square roots are exact, there is no NaN and no
      rounding.
    - A JavaScript object used as a dictionary ([ColumnMap]) is a
      [gmap string string]; a missing key reads as [None] (undefined).
    - The SQL engine is not part of the repository.  The fragment of SQL the
      code uses is given its standard meaning: aggregates skip NULL, SUM over
      no non-NULL value is NULL, arithmetic and comparisons propagate NULL,
      a WHERE clause keeps the rows whose condition is true.  The engine's
      TRY_CAST functions are parameters of the development. *)

From Stdlib Require Import Reals Lra Ascii String.
From Stdlib Require Import Sorting.Sorted Sorting.Permutation.
From stdpp Require Import base option list sorting strings gmap.

Open Scope string_scope.

(** ** JavaScript strings *)

Module JsString.

(** [String.prototype.toLowerCase] on ASCII: "A".."Z" are shifted by 32. *)
Definition lower_char (c : ascii) : ascii :=
  let n := Ascii.N_of_ascii c in
  if ((65 <=? n) && (n <=? 90))%N then Ascii.ascii_of_N (n + 32) else c.

Fixpoint toLowerCase (s : string) : string :=
  match s with
  | EmptyString => EmptyString
  | String c t => String (lower_char c) (toLowerCase t)
  end.

(** White space removed by [String.prototype.trim] (ASCII part): TAB, LF,
    VT, FF, CR and SPACE. *)
Definition is_space (c : ascii) : bool :=
  let n := Ascii.N_of_ascii c in
  ((9 <=? n) && (n <=? 13) || (n =? 32))%N.

Fixpoint trimStart (s : string) : string :=
  match s with
  | EmptyString => EmptyString
  | String c t => if is_space c then trimStart t else s
  end.

Fixpoint trimEnd (s : string) : string :=
  match s with
  | EmptyString => EmptyString
  | String c t =>
      match trimEnd t with
      | EmptyString => if is_space c then EmptyString else String c EmptyString
      | t' => String c t'
      end
  end.

Definition trim (s : string) : string := trimEnd (trimStart s).

(** [hay.includes(needle)]: [needle] starts at some position of [hay]. *)
Fixpoint includes (needle hay : string) {struct hay} : bool :=
  if String.prefix needle hay then true
  else match hay with
       | EmptyString => false
       | String _ t => includes needle t
       end.

(** The class [\w] of regular expressions. *)
Definition is_word_char (c : ascii) : bool :=
  let n := Ascii.N_of_ascii c in
  ((48 <=? n) && (n <=? 57) || (65 <=? n) && (n <=? 90)
   || (97 <=? n) && (n <=? 122) || (n =? 95))%N.

(** Is the character at offset [n] of [s] a word character?  The end of
    the string is not. *)
Definition word_char_at (n : nat) (s : string) : bool :=
  match String.get n s with
  | Some c => is_word_char c
  | None => false
  end.

(** [/\bw\b/.test(hay)] for a literal [w] made of word characters: [w]
    occurs at a position where the character before it (if any) and the
    character after it (if any) are not word characters.  [prev] tells
    whether the character before the current position is a word
    character. *)
Fixpoint includes_word_from (prev : bool) (w hay : string) {struct hay} : bool :=
  if negb prev && String.prefix w hay && negb (word_char_at (String.length w) hay)
  then true
  else match hay with
       | EmptyString => false
       | String c t => includes_word_from (is_word_char c) w t
       end.

Definition includes_word (w hay : string) : bool :=
  includes_word_from false w hay.

(** [parts.join(sep)]. *)
Fixpoint join (sep : string) (parts : list string) : string :=
  match parts with
  | [] => EmptyString
  | [p] => p
  | p :: ps => p +:+ sep +:+ join sep ps
  end.

(** JavaScript truthiness of a string: every string but the empty one. *)
Definition truthy (s : string) : bool :=
  match s with EmptyString => false | _ => true end.

End JsString.

Import JsString.

(** ** Canonical schema (lib/contracts.ts) *)

Inductive CanonicalField :=
| order_id | product | timestamp | quantity | price | revenue
| channel | city | state | zip | source_file | original_column.

#[global] Instance CanonicalField_eq_dec : EqDecision CanonicalField.
Proof. solve_decision. Defined.

(** The string a field is written as, which is also its key in a
    [ColumnMap]. *)
Definition field_name (f : CanonicalField) : string :=
  match f with
  | order_id => "order_id" | product => "product" | timestamp => "timestamp"
  | quantity => "quantity" | price => "price" | revenue => "revenue"
  | channel => "channel" | city => "city" | state => "state" | zip => "zip"
  | source_file => "source_file" | original_column => "original_column"
  end.

Definition CANONICAL_FIELDS : list CanonicalField :=
  [order_id; product; timestamp; quantity; price; revenue; channel; city;
   state; zip; source_file; original_column].

(** [ColumnInference] / [Mapping]. *)
Record Mapping := {
  originalName : string;
  canonicalName : option CanonicalField;
  confidence : R;
  reason : string
}.

(** ** Ordered rule lists

    The specification describes the mapper and the router as scans of an
    ordered list of (result, predicate) rules. *)

Module Rules.

(** First-match-wins over a rule list. *)
Definition first_match {A} (rules : list (A * (string → bool))) (text : string)
    : option A :=
  fst <$> find (λ r, snd r text) rules.

(** The rules evaluated by a first-match scan: all rules up to and
    including the first one that matches. *)
Fixpoint scanned {A} (rules : list (A * (string → bool))) (text : string)
    : list A :=
  match rules with
  | [] => []
  | r :: rs => fst r :: (if snd r text then [] else scanned rs text)
  end.

End Rules.

(** ** The canonical field mapper: [inferCanonical] *)

Module Infer.

(** The ten regular expressions, each as the test it performs on the
    normalized name. *)

(** [/order|id/.test(lower) || /^id$/.test(lower)] *)
Definition re_order_id (lower : string) : bool :=
  (includes "order" lower || includes "id" lower) || String.eqb lower "id".

(** [/product|item|sku/] *)
Definition re_product (lower : string) : bool :=
  includes "product" lower || includes "item" lower || includes "sku" lower.

(** [/date|time/] *)
Definition re_timestamp (lower : string) : bool :=
  includes "date" lower || includes "time" lower.

(** [/qty|quantity|units?/]: the optional [s] never decides the match, so
    the last alternative is the presence of "unit". *)
Definition re_quantity (lower : string) : bool :=
  includes "qty" lower || includes "quantity" lower || includes "unit" lower.

(** [/price|amount|cost/] *)
Definition re_price (lower : string) : bool :=
  includes "price" lower || includes "amount" lower || includes "cost" lower.

(** [/revenue|sales|total/] *)
Definition re_revenue (lower : string) : bool :=
  includes "revenue" lower || includes "sales" lower || includes "total" lower.

(** [/channel|market|source/] *)
Definition re_channel (lower : string) : bool :=
  includes "channel" lower || includes "market" lower || includes "source" lower.

(** [/city/] *)
Definition re_city (lower : string) : bool := includes "city" lower.

(** [/\bstate\b|province/] *)
Definition re_state (lower : string) : bool :=
  includes_word "state" lower || includes "province" lower.

(** [/\bzip\b|postal/] *)
Definition re_zip (lower : string) : bool :=
  includes_word "zip" lower || includes "postal" lower.

(** The local variables of [inferCanonical], with one ghost component:
    [tested] records, in order, the fields whose regular expression was
    evaluated. *)
Record locals := {
  canonical : option CanonicalField;
  conf : R;
  reasons : list string;
  tested : list CanonicalField
}.

(** [const score = (cond, bump = 0.25) => (cond ? bump : 0)] *)
Definition score (cond : bool) (bump : option R) : R :=
  if cond then match bump with Some b => b | None => 0.25%R end else 0%R.

(** One statement
    [if (!canonical && re.test(lower)) { canonical = f; confidence +=
    score(true, 0.4); reason.push(msg); }].
    [&&] evaluates its right operand only when [canonical] is still
    undefined. *)
Definition rule (re : string → bool) (f : CanonicalField) (msg : string)
    (lower : string) (st : locals) : locals :=
  match canonical st with
  | Some _ => st
  | None =>
      if re lower
      then {| canonical := Some f;
              conf := (conf st + score true (Some 0.4))%R;
              reasons := reasons st ++ [msg];
              tested := tested st ++ [f] |}
      else {| canonical := None; conf := conf st; reasons := reasons st;
              tested := tested st ++ [f] |}
  end.

Definition run (lower : string) : locals :=
  let st := {| canonical := None; conf := 0%R; reasons := []; tested := [] |} in
  let st := rule re_order_id order_id "matches order/id" lower st in
  let st := rule re_product product "matches product/item/sku" lower st in
  let st := rule re_timestamp timestamp "matches date/time" lower st in
  let st := rule re_quantity quantity "matches quantity" lower st in
  let st := rule re_price price "matches price/amount" lower st in
  let st := rule re_revenue revenue "matches revenue/total" lower st in
  let st := rule re_channel channel "matches channel/market/source" lower st in
  let st := rule re_city city "matches city" lower st in
  let st := rule re_state state "matches state/province" lower st in
  let st := rule re_zip zip "matches zip/postal" lower st in
  st.

Definition normalize (name : string) : string := trim (toLowerCase name).

Definition inferCanonical (name : string) : Mapping :=
  let st := run (normalize name) in
  {| originalName := name;
     canonicalName := canonical st;
     confidence := match canonical st with
                   | Some _ => Rmin 1 (0.5 + conf st)
                   | None => 0%R
                   end;
     reason := join "; " (reasons st) |}.

(** The fields whose pattern was evaluated for [name]. *)
Definition tested_rules (name : string) : list CanonicalField :=
  tested (run (normalize name)).

(** The ordered rule list of the specification: one pattern per canonical
    field, in precedence order. *)
Definition spec_rules : list (CanonicalField * (string → bool)) :=
  [(order_id, re_order_id); (product, re_product); (timestamp, re_timestamp);
   (quantity, re_quantity); (price, re_price); (revenue, re_revenue);
   (channel, re_channel); (city, re_city); (state, re_state); (zip, re_zip)].

End Infer.

(** ** The chat query router: [routeChatQuestion] *)

Module Chat.

Inductive Template :=
| top_products | channels | geo | anomalies | mom_growth | yoy_growth | summary.

#[global] Instance Template_eq_dec : EqDecision Template.
Proof. solve_decision. Defined.

(** The classification performed by [routeChatQuestion]: the chain of
    [if (...) return { template: ..., table: ... }] statements on
    [text = q.toLowerCase()].  The table of each branch is the result of
    one fixed query and plays no part in the choice of the branch. *)
Definition route_template (q : string) : Template :=
  let text := toLowerCase q in
  if includes "top" text && includes "product" text then top_products
  else if includes "channel" text then channels
  else if includes "state" text || includes "city" text || includes "geo" text
  then geo
  else if includes "anomaly" text || includes "outlier" text then anomalies
  else if includes "mom" text || includes "month" text || includes "growth" text
  then mom_growth
  else if includes "yoy" text || includes "year" text then yoy_growth
  else summary.

(** The ordered rule list of the specification (rules 1 to 6; rule 7 is
    the default). *)
Definition spec_rules : list (Template * (string → bool)) :=
  [(top_products, λ t, includes "top" t && includes "product" t);
   (channels, λ t, includes "channel" t);
   (geo, λ t, includes "state" t || includes "city" t || includes "geo" t);
   (anomalies, λ t, includes "anomaly" t || includes "outlier" t);
   (mom_growth, λ t, includes "mom" t || includes "month" t || includes "growth" t);
   (yoy_growth, λ t, includes "yoy" t || includes "year" t)].

End Chat.


(** ** Dates and timestamps

    A SQL TIMESTAMP is represented by its calendar fields: the date and the
    time of day in microseconds.  Comparison is chronological, which on
    calendar fields is lexicographic. *)

Record date := { year : Z; month : Z; day : Z }.

Record Timestamp := { ts_date : date; ts_micros : Z }.

#[global] Instance date_eq_dec : EqDecision date.
Proof. solve_decision. Defined.

#[global] Instance Timestamp_eq_dec : EqDecision Timestamp.
Proof. solve_decision. Defined.

Module Calendar.

Definition date_ltb (a b : date) : bool :=
  ((year a <? year b)
   || ((year a =? year b)
       && ((month a <? month b)
           || ((month a =? month b) && (day a <? day b)))))%Z.

Definition date_leb (a b : date) : bool := negb (date_ltb b a).

Definition ts_ltb (a b : Timestamp) : bool :=
  date_ltb (ts_date a) (ts_date b)
  || (bool_decide (ts_date a = ts_date b) && (ts_micros a <? ts_micros b)%Z).

Definition ts_leb (a b : Timestamp) : bool := negb (ts_ltb b a).

(** [DATE_TRUNC('day', ts)]: the timestamp at midnight, identified with
    its date. *)
Definition trunc_day (t : Timestamp) : date := ts_date t.

(** [DATE_TRUNC('month', d)] and [DATE_TRUNC('year', d)]. *)
Definition trunc_month (d : date) : date :=
  {| year := year d; month := month d; day := 1 |}.

Definition trunc_year (d : date) : date :=
  {| year := year d; month := 1; day := 1 |}.

(** [d - INTERVAL 1 MONTH] and [d - INTERVAL 1 YEAR].  The code applies
    them to the first day of a month and to the first of January, where
    the day of the month is never clipped. *)
Definition sub_month (d : date) : date :=
  if (month d =? 1)%Z
  then {| year := year d - 1; month := 12; day := day d |}
  else {| year := year d; month := month d - 1; day := day d |}.

Definition sub_year (d : date) : date :=
  {| year := year d - 1; month := month d; day := day d |}.


End Calendar.

(** ** The SQL engine *)

(** The values of a column of the uploaded table. *)
Inductive Value :=
| VNull
| VText (s : string)
| VNumber (x : R)
| VTime (t : Timestamp).

#[global] Instance R_eq_dec : EqDecision R := Req_dec_T.
#[global] Instance Rle_dec' : RelDecision Rle := Rle_dec.
#[global] Instance Rlt_dec' : RelDecision Rlt := Rlt_dec.

#[global] Instance Value_eq_dec : EqDecision Value.
Proof. solve_decision. Defined.

(** Table [data]: column names and rows of cells, one cell per column. *)
Record Table := { columns : list string; rows : list (list Value) }.

(** The engine's [TRY_CAST(v AS DOUBLE)] and [TRY_CAST(v AS TIMESTAMP)]:
    total functions that answer NULL ([None]) where the value cannot be
    converted. *)
Class Engine := {
  try_cast_double : Value → option R;
  try_cast_timestamp : Value → option Timestamp
}.

Module Sql.

(** The expressions that occur in the definition of view [cleaned]. *)
Inductive expr :=
| Null                              (* NULL *)
| NullDouble                        (* NULL::DOUBLE *)
| Col (name : string)               (* "name" *)
| TryCastDouble (e : expr)          (* TRY_CAST(e AS DOUBLE) *)
| TryCastTimestamp (e : expr)       (* TRY_CAST(e AS TIMESTAMP) *)
| Mul (a b : expr).                 (* a * b *)

#[global] Instance expr_eq_dec : EqDecision expr.
Proof. solve_decision. Defined.

(** The position of a column in the table. *)
Fixpoint index_of (name : string) (cols : list string) : option nat :=
  match cols with
  | [] => None
  | c :: cols' => if decide (c = name) then Some 0 else S <$> index_of name cols'
  end.

(** The cell of column [name] in a row. *)
Definition cell (cols : list string) (row : list Value) (name : string) : Value :=
  match index_of name cols with
  | Some i => default VNull (row !! i)
  | None => VNull
  end.

(** Binding: every column an expression names exists in the table.  A
    statement that names an unknown column is rejected. *)
Fixpoint binds (cols : list string) (e : expr) : bool :=
  match e with
  | Null | NullDouble => true
  | Col name => bool_decide (name ∈ cols)
  | TryCastDouble e | TryCastTimestamp e => binds cols e
  | Mul a b => binds cols a && binds cols b
  end.

Definition of_double (x : option R) : Value :=
  match x with Some x => VNumber x | None => VNull end.

Definition of_timestamp (t : option Timestamp) : Value :=
  match t with Some t => VTime t | None => VNull end.

(** NULL-propagating arithmetic on DOUBLE. *)
Definition mul (a b : option R) : option R :=
  match a, b with Some x, Some y => Some (x * y)%R | _, _ => None end.

Definition sub (a b : option R) : option R :=
  match a, b with Some x, Some y => Some (x - y)%R | _, _ => None end.

Definition div (a b : option R) : option R :=
  match a, b with Some x, Some y => Some (x / y)%R | _, _ => None end.

(** [NULLIF(a, 0)]. *)
Definition nullif0 (a : option R) : option R :=
  match a with
  | Some x => if decide (x = 0%R) then None else Some x
  | None => None
  end.

(** The DOUBLE and the TIMESTAMP held by a value, NULL otherwise. *)
Definition as_double (v : Value) : option R :=
  match v with VNumber x => Some x | _ => None end.

Definition as_timestamp (v : Value) : option Timestamp :=
  match v with VTime t => Some t | _ => None end.

Fixpoint eval `{Engine} (cols : list string) (row : list Value) (e : expr) : Value :=
  match e with
  | Null | NullDouble => VNull
  | Col name => cell cols row name
  | TryCastDouble e => of_double (try_cast_double (eval cols row e))
  | TryCastTimestamp e => of_timestamp (try_cast_timestamp (eval cols row e))
  | Mul a b => of_double (mul (as_double (eval cols row a))
                              (as_double (eval cols row b)))
  end.

(** Aggregates.  They skip NULL; over no value at all they are NULL. *)
Definition non_null {A} (l : list (option A)) : list A := omap (λ x, x) l.

Definition Rsum (l : list R) : R := foldr Rplus 0%R l.

Definition sum (l : list (option R)) : option R :=
  match non_null l with
  | [] => None
  | xs => Some (Rsum xs)
  end.

Definition avg (l : list (option R)) : option R :=
  match non_null l with
  | [] => None
  | xs => Some (Rsum xs / INR (length xs))%R
  end.

(** [STDDEV_SAMP]: the square root of the sum of squared deviations from
    the mean over [n - 1]; NULL for fewer than two values. *)
Definition stddev_samp (l : list (option R)) : option R :=
  let xs := non_null l in
  let n := length xs in
  if (n <? 2)%nat then None
  else
    let m := (Rsum xs / INR n)%R in
    Some (sqrt (Rsum ((λ x, (x - m) * (x - m))%R <$> xs) / (INR n - 1))).

Definition min_ts (l : list (option Timestamp)) : option Timestamp :=
  match non_null l with
  | [] => None
  | t :: ts => Some (foldl (λ a b, if Calendar.ts_leb a b then a else b) t ts)
  end.

Definition max_ts (l : list (option Timestamp)) : option Timestamp :=
  match non_null l with
  | [] => None
  | t :: ts => Some (foldl (λ a b, if Calendar.ts_leb a b then b else a) t ts)
  end.

(** [GROUP BY key]: one group per distinct key, holding the rows with that
    key. *)
Definition group_by {A K} `{EqDecision K} (key : A → K) (l : list A)
    : list (K * list A) :=
  (λ k, (k, filter (λ r, key r = k) l)) <$> remove_dups (key <$> l).

(** [ORDER BY]: a stable insertion sort; [leb a b] tells that [a] may
    come before [b]. *)
Fixpoint insert_by {A} (leb : A → A → bool) (x : A) (l : list A) : list A :=
  match l with
  | [] => [x]
  | y :: l' => if leb x y then x :: l else y :: insert_by leb x l'
  end.

Definition order_by {A} (leb : A → A → bool) (l : list A) : list A :=
  foldr (insert_by leb) [] l.

(** Sort orders on a DOUBLE key; NULL keys come last in both
    directions. *)
Definition asc_leb (a b : option R) : bool :=
  match a, b with
  | Some x, Some y => bool_decide (x <= y)%R
  | Some _, None => true
  | None, Some _ => false
  | None, None => true
  end.

Definition desc_leb (a b : option R) : bool :=
  match a, b with
  | Some x, Some y => bool_decide (y <= x)%R
  | Some _, None => true
  | None, Some _ => false
  | None, None => true
  end.

(** [LIMIT l OFFSET o]. *)
Definition limit_offset {A} (l o : nat) (rows : list A) : list A :=
  take l (drop o rows).

End Sql.

(** ** The cleaned view (lib/analytics: [materializeCleanedView]) *)

(** [ColumnMap]: the JavaScript object that maps a key to the name of a raw
    column.  [buildColumnMap] only writes canonical field names as keys, but
    [materializeCleanedView] also reads the key "date". *)
Abbreviation ColumnMap := (gmap string string).

Module Js.

(** Truthiness of a value of type [string | undefined]. *)
Definition truthy_opt (v : option string) : bool :=
  match v with Some s => truthy s | None => false end.

(** [a ?? b] *)
Definition nullish {A} (a b : option A) : option A :=
  match a with Some _ => a | None => b end.

(** Truthiness of a value of type [number | null]. *)
Definition truthy_num (x : option R) : bool :=
  match x with Some x => negb (bool_decide (x = 0%R)) | None => false end.

(** [x !== 0] *)
Definition not_zero (x : option R) : bool :=
  match x with Some x => negb (bool_decide (x = 0%R)) | None => true end.

End Js.

(** The select list of view [cleaned], one expression per column. *)
Record View := {
  v_order_id : Sql.expr;
  v_product : Sql.expr;
  v_ts : Sql.expr;
  v_quantity : Sql.expr;
  v_price : Sql.expr;
  v_channel : Sql.expr;
  v_city : Sql.expr;
  v_state : Sql.expr;
  v_zip : Sql.expr;
  v_revenue : Sql.expr
}.

#[global] Instance View_eq_dec : EqDecision View.
Proof. solve_decision. Defined.

(** The state of the connection: table [data] and, once created, view
    [cleaned]. *)
Record Conn := { data : Table; cleaned : option View }.

(** A row of view [cleaned].  The columns ts, quantity, price and revenue
    are TIMESTAMP or DOUBLE (or an all-NULL column) by the form of their
    expressions; the other columns carry raw values. *)
Record CleanedRow := {
  c_order_id : Value;
  c_product : Value;
  c_ts : option Timestamp;
  c_quantity : option R;
  c_price : option R;
  c_channel : Value;
  c_city : Value;
  c_state : Value;
  c_zip : Value;
  c_revenue : option R
}.

Module Cleaned.
Import Sql Js.

(** [const qi = (v?: string) => (v ? quoted identifier : "NULL")]: a
    reference to the column named [v], with every character of the name
    kept. *)
Definition qi (v : option string) : expr :=
  match v with
  | Some s => if truthy s then Col s else Null
  | None => Null
  end.

(** The SELECT list built by [materializeCleanedView]. *)
Definition select_list (mapping : ColumnMap) : View :=
  let dateCol :=
    nullish (mapping !! "timestamp")
            (nullish (mapping !! "date") (mapping !! "original_column")) in
  let priceCol := mapping !! "price" in
  let qtyCol := mapping !! "quantity" in
  let revenueExpr :=
    if truthy_opt (mapping !! "revenue")
    then TryCastDouble (qi (mapping !! "revenue"))
    else if truthy_opt priceCol && truthy_opt qtyCol
         then Mul (TryCastDouble (qi priceCol)) (TryCastDouble (qi qtyCol))
         else NullDouble in
  {| v_order_id :=
       if truthy_opt (mapping !! "order_id") then qi (mapping !! "order_id") else Null;
     v_product :=
       if truthy_opt (mapping !! "product") then qi (mapping !! "product") else Null;
     v_ts := if truthy_opt dateCol then TryCastTimestamp (qi dateCol) else Null;
     v_quantity := if truthy_opt qtyCol then TryCastDouble (qi qtyCol) else Null;
     v_price := if truthy_opt priceCol then TryCastDouble (qi priceCol) else Null;
     v_channel :=
       if truthy_opt (mapping !! "channel") then qi (mapping !! "channel") else Null;
     v_city := if truthy_opt (mapping !! "city") then qi (mapping !! "city") else Null;
     v_state :=
       if truthy_opt (mapping !! "state") then qi (mapping !! "state") else Null;
     v_zip := if truthy_opt (mapping !! "zip") then qi (mapping !! "zip") else Null;
     v_revenue := revenueExpr |}.

(** The column a key is mapped to: the value under the key when it is a
    non-empty string. *)
Definition mapped (mapping : ColumnMap) (key : string) : option string :=
  match mapping !! key with
  | Some s => if truthy s then Some s else None
  | None => None
  end.

(** The column that feeds ts: the first of the keys timestamp, date and
    original_column that is present, when its value is a non-empty
    string. *)
Definition date_column (mapping : ColumnMap) : option string :=
  match nullish (mapping !! "timestamp")
                (nullish (mapping !! "date") (mapping !! "original_column")) with
  | Some s => if truthy s then Some s else None
  | None => None
  end.

Definition exprs (v : View) : list expr :=
  [v_order_id v; v_product v; v_ts v; v_quantity v; v_price v; v_channel v;
   v_city v; v_state v; v_zip v; v_revenue v].

Definition view_binds (cols : list string) (v : View) : bool :=
  forallb (binds cols) (exprs v).

(** [CREATE OR REPLACE VIEW cleaned AS SELECT ... FROM data]: the view is
    replaced when its expressions bind; otherwise the statement fails
    ([None]) and the promise of [conn.query] rejects. *)
Definition create_or_replace_view (c : Conn) (v : View) : option Conn :=
  if view_binds (columns (data c)) v
  then Some {| data := data c; cleaned := Some v |}
  else None.

Definition materializeCleanedView (c : Conn) (mapping : ColumnMap) : option Conn :=
  create_or_replace_view c (select_list mapping).

(** One row of the view, computed from one row of [data]. *)
Definition eval_row `{Engine} (cols : list string) (v : View) (row : list Value)
    : CleanedRow :=
  {| c_order_id := eval cols row (v_order_id v);
     c_product := eval cols row (v_product v);
     c_ts := as_timestamp (eval cols row (v_ts v));
     c_quantity := as_double (eval cols row (v_quantity v));
     c_price := as_double (eval cols row (v_price v));
     c_channel := eval cols row (v_channel v);
     c_city := eval cols row (v_city v);
     c_state := eval cols row (v_state v);
     c_zip := eval cols row (v_zip v);
     c_revenue := as_double (eval cols row (v_revenue v)) |}.

(** [FROM cleaned]: the rows of the view, recomputed from the current
    contents of [data]; the query fails when the view does not exist or no
    longer binds. *)
Definition scan `{Engine} (c : Conn) : option (list CleanedRow) :=
  v ← cleaned c;
  if view_binds (columns (data c)) v
  then Some (eval_row (columns (data c)) v <$> rows (data c))
  else None.

End Cleaned.

(** [buildColumnMap]: later columns overwrite earlier ones. *)
Definition buildColumnMap (cols : list Mapping) : ColumnMap :=
  foldl (λ (map : ColumnMap) col,
           match canonicalName col with
           | Some f => <[field_name f := originalName col]> map
           | None => map
           end) ∅ cols.

(** ** The aggregation engine (lib/analytics) *)

Record SummaryResult := {
  totalRevenue : option R;        (* undefined when the sum is NULL *)
  totalQuantity : option R;
  minDate : option Timestamp;
  maxDate : option Timestamp;
  momGrowthPct : option R;        (* [None] is null *)
  yoyGrowthPct : option R;
  hasDate : bool
}.

Record TimeseriesPoint := {
  t_date : date; t_revenue : option R; t_quantity : option R
}.

Record Timeseries := { daily : list TimeseriesPoint; monthly : list TimeseriesPoint }.

Record ProductRow := {
  p_product : Value; p_revenue : option R; p_quantity : option R
}.

Record GeoRow := {
  g_state : Value; g_city : Value; g_revenue : option R; g_quantity : option R
}.

Record ChannelRow := {
  ch_channel : Value; ch_revenue : option R; ch_quantity : option R
}.

Record AnomalyRow := {
  a_date : date; a_revenue : option R; a_zscore : option R
}.

(** The direction argument of [getProducts]. *)
Inductive Order := asc | desc.

Module Analytics.
Import Sql Js Calendar.

(** [WHERE ts IS NOT NULL]: the rows with a timestamp, paired with it. *)
Definition dated (rs : list CleanedRow) : list (Timestamp * CleanedRow) :=
  omap (λ r, (λ t, (t, r)) <$> c_ts r) rs.

(** [SELECT DATE_TRUNC(.., ts), .. FROM cleaned WHERE ts IS NOT NULL
    GROUP BY 1]: the rows of each bucket. *)
Definition buckets (trunc : Timestamp → date) (rs : list CleanedRow)
    : list (date * list CleanedRow) :=
  (λ g : date * list (Timestamp * CleanedRow), (g.1, snd <$> g.2))
    <$> group_by (λ p, trunc p.1) (dated rs).

(** The common table expression [daily]: revenue summed per day. *)
Definition daily_revenue (rs : list CleanedRow) : list (date * option R) :=
  (λ g : date * list CleanedRow, (g.1, sum (c_revenue <$> g.2)))
    <$> buckets trunc_day rs.

(** [SUM(CASE WHEN cond THEN rev ELSE 0 END)] over [daily]. *)
Definition case_sum (cond : date → bool) (days : list (date * option R))
    : option R :=
  sum ((λ p : date * option R, if cond p.1 then p.2 else Some 0%R) <$> days).

(** The conditions of the four sums of the growth query, for
    [CURRENT_DATE = today]. *)
Definition in_this_month (today d : date) : bool :=
  date_leb (trunc_month today) d.

Definition in_prev_month (today d : date) : bool :=
  date_leb (sub_month (trunc_month today)) d && date_ltb d (trunc_month today).

Definition in_this_year (today d : date) : bool :=
  date_leb (trunc_year today) d.

Definition in_prev_year (today d : date) : bool :=
  date_leb (sub_year (trunc_year today)) d && date_ltb d (trunc_year today).

(** [prev && prev !== 0 ? ((this ?? 0) - prev) / prev : null] *)
Definition growthPct (this prev : option R) : option R :=
  if truthy_num prev && not_zero prev
  then (λ p, ((default 0 this - p) / p)%R) <$> prev
  else None.

(** [getSummary] on the rows of the view, the clock reading [today]. *)
Definition summary_of (today : date) (rs : list CleanedRow) : SummaryResult :=
  let total_revenue := sum (c_revenue <$> rs) in
  let total_qty := sum (c_quantity <$> rs) in
  let min_ts := Sql.min_ts (c_ts <$> rs) in
  let max_ts := Sql.max_ts (c_ts <$> rs) in
  let hasDate := bool_decide (is_Some min_ts) in
  let g := daily_revenue rs in
  {| totalRevenue := total_revenue;
     totalQuantity := total_qty;
     minDate := min_ts;
     maxDate := max_ts;
     momGrowthPct :=
       if hasDate
       then growthPct (case_sum (in_this_month today) g)
                      (case_sum (in_prev_month today) g)
       else None;
     yoyGrowthPct :=
       if hasDate
       then growthPct (case_sum (in_this_year today) g)
                      (case_sum (in_prev_year today) g)
       else None;
     hasDate := hasDate |}.

Definition getSummary `{Engine} (today : date) (c : Conn) : option SummaryResult :=
  summary_of today <$> Cleaned.scan c.

(** [getTimeseries]: revenue and quantity per day and per month, in
    ascending order of the bucket. *)
Definition series (trunc : Timestamp → date) (rs : list CleanedRow)
    : list TimeseriesPoint :=
  order_by (λ a b, date_leb (t_date a) (t_date b))
    ((λ g : date * list CleanedRow,
        {| t_date := g.1;
              t_revenue := sum (c_revenue <$> g.2);
              t_quantity := sum (c_quantity <$> g.2) |}) <$> buckets trunc rs).

Definition timeseries_of (rs : list CleanedRow) : Timeseries :=
  {| daily := series trunc_day rs;
     monthly := series (λ t, trunc_month (trunc_day t)) rs |}.

Definition getTimeseries `{Engine} (c : Conn) : option Timeseries :=
  timeseries_of <$> Cleaned.scan c.

(** [getProducts]: the groups of the query, before ORDER BY and LIMIT. *)
Definition product_groups (rs : list CleanedRow) : list ProductRow :=
  (λ g : Value * list CleanedRow,
     {| p_product := g.1;
           p_revenue := sum (c_revenue <$> g.2);
           p_quantity := sum (c_quantity <$> g.2) |})
    <$> group_by c_product (filter (λ r, c_product r ≠ VNull) rs).

(** [ORDER BY revenue ${order === "asc" ? "ASC" : "DESC"}] *)
Definition revenue_leb (order : Order) : option R → option R → bool :=
  match order with asc => asc_leb | desc => desc_leb end.

Definition products_of (limit offset : nat) (order : Order) (rs : list CleanedRow)
    : list ProductRow :=
  limit_offset limit offset
    (order_by (λ a b, revenue_leb order (p_revenue a) (p_revenue b))
       (product_groups rs)).

(** [getProducts(conn, limit = 10, offset = 0, order = "desc")]: an omitted
    argument is [None]. *)
Definition getProducts `{Engine} (c : Conn) (limit offset : option nat)
    (order : option Order) : option (list ProductRow) :=
  products_of (default 10%nat limit) (default 0%nat offset) (default desc order)
    <$> Cleaned.scan c.

(** [getGeo] *)
Definition geo_of (rs : list CleanedRow) : list GeoRow :=
  order_by (λ a b, desc_leb (g_revenue a) (g_revenue b))
    ((λ g : (Value * Value) * list CleanedRow,
        {| g_state := g.1.1; g_city := g.1.2;
              g_revenue := sum (c_revenue <$> g.2);
              g_quantity := sum (c_quantity <$> g.2) |})
       <$> group_by (λ r, (c_state r, c_city r))
             (filter (λ r, c_state r ≠ VNull ∨ c_city r ≠ VNull) rs)).

Definition getGeo `{Engine} (c : Conn) : option (list GeoRow) :=
  geo_of <$> Cleaned.scan c.

(** [getChannels] *)
Definition channels_of (rs : list CleanedRow) : list ChannelRow :=
  order_by (λ a b, desc_leb (ch_revenue a) (ch_revenue b))
    ((λ g : Value * list CleanedRow,
        {| ch_channel := g.1;
              ch_revenue := sum (c_revenue <$> g.2);
              ch_quantity := sum (c_quantity <$> g.2) |})
       <$> group_by c_channel (filter (λ r, c_channel r ≠ VNull) rs)).

Definition getChannels `{Engine} (c : Conn) : option (list ChannelRow) :=
  channels_of <$> Cleaned.scan c.

(** [getAnomalies].  [(revenue - avg_rev) / NULLIF(sd_rev, 0)] *)
Definition zscore (rev avg_rev sd_rev : option R) : option R :=
  div (sub rev avg_rev) (nullif0 sd_rev).

(** [ABS(z) > 2] as a WHERE condition: NULL does not pass. *)
Definition abs_gt_2 (z : option R) : bool :=
  match z with Some z => bool_decide (2 < Rabs z)%R | None => false end.

Definition anomalies_of (rs : list CleanedRow) : list AnomalyRow :=
  let days := daily_revenue rs in
  let avg_rev := avg (snd <$> days) in
  let sd_rev := stddev_samp (snd <$> days) in
  let joined :=
    (λ p : date * option R,
       {| a_date := p.1; a_revenue := p.2;
             a_zscore := zscore p.2 avg_rev sd_rev |}) <$> days in
  order_by (λ a b, desc_leb (Rabs <$> a_zscore a) (Rabs <$> a_zscore b))
    (filter (λ a, bool_decide (is_Some sd_rev) && abs_gt_2 (a_zscore a)) joined).

Definition getAnomalies `{Engine} (c : Conn) : option (list AnomalyRow) :=
  anomalies_of <$> Cleaned.scan c.

End Analytics.

(** ** The dashboard (components/UploadInference.tsx: [runAggregates]) *)

Record AggregateResult := {
  agg_summary : SummaryResult;
  agg_timeseries : Timeseries;
  agg_products : list ProductRow;
  agg_geo : list GeoRow;
  agg_channels : list ChannelRow;
  agg_anomalies : list AnomalyRow
}.

Module Dashboard.
Import Analytics.

(** The six queries of [runAggregates], in the order of the code; a query
    that fails makes the whole computation fail. *)
Definition aggregates `{Engine} (today : date) (c : Conn) : option AggregateResult :=
  summary ← getSummary today c;
  timeseries ← getTimeseries c;
  products ← getProducts c (Some 10%nat) (Some 0%nat) None;
  geo ← getGeo c;
  channels ← getChannels c;
  anomalies ← getAnomalies c;
  Some {| agg_summary := summary; agg_timeseries := timeseries;
          agg_products := products; agg_geo := geo; agg_channels := channels;
          agg_anomalies := anomalies |}.

(** [runAggregates]: build the view from the mapping, then compute the
    aggregates. *)
Definition runAggregates `{Engine} (today : date) (c : Conn) (map : ColumnMap)
    : option AggregateResult :=
  c' ← Cleaned.materializeCleanedView c map;
  aggregates today c'.

End Dashboard.

(** ** Sample data *)

Module Demo.

(** An engine whose casts keep the values that already have the target type
    and answer NULL for all others. *)
Definition engine : Engine :=
  {| try_cast_double := Sql.as_double; try_cast_timestamp := Sql.as_timestamp |}.

Definition midnight (y m d : Z) : Timestamp :=
  {| ts_date := {| year := y; month := m; day := d |}; ts_micros := 0 |}.

(** An order table whose columns are mapped by [inferCanonical]. *)
Definition order_columns : list string :=
  ["Order ID"; "Product"; "Date"; "Qty"; "Price"; "Channel"].

Definition orders : Table :=
  {| columns := order_columns;
     rows :=
       [[VText "A-1"; VText "tea"; VTime (midnight 2024 2 10); VNumber 2;
         VNumber 50; VText "web"];
        [VText "A-2"; VText "mug"; VTime (midnight 2024 3 10); VNumber 1;
         VNumber 50; VText "shop"];
        [VText "A-3"; VText "tea"; VText "soon"; VText "many"; VNumber 7; VNull]] |}.

Definition order_map : ColumnMap :=
  buildColumnMap (Infer.inferCanonical <$> order_columns).

Definition fresh (t : Table) : Conn := {| data := t; cleaned := None |}.

(** The rows of the view built over table [t] with [mapping]. *)
Definition cleaned_of (t : Table) (mapping : ColumnMap) : option (list CleanedRow) :=
  c ← Cleaned.materializeCleanedView (fresh t) mapping;
  Cleaned.scan (H := engine) c.

(** The rows of [cleaned] over [orders] with [order_map]. *)
Definition order_rows : list CleanedRow :=
  [{| c_order_id := VText "A-1"; c_product := VText "tea";
      c_ts := Some (midnight 2024 2 10); c_quantity := Some 2%R;
      c_price := Some 50%R; c_channel := VText "web"; c_city := VNull;
      c_state := VNull; c_zip := VNull; c_revenue := Some (50 * 2)%R |};
   {| c_order_id := VText "A-2"; c_product := VText "mug";
      c_ts := Some (midnight 2024 3 10); c_quantity := Some 1%R;
      c_price := Some 50%R; c_channel := VText "shop"; c_city := VNull;
      c_state := VNull; c_zip := VNull; c_revenue := Some (50 * 1)%R |};
   {| c_order_id := VText "A-3"; c_product := VText "tea"; c_ts := None;
      c_quantity := None; c_price := Some 7%R; c_channel := VNull;
      c_city := VNull; c_state := VNull; c_zip := VNull; c_revenue := None |}].

(** A table of dated revenue, one row per entry. *)
Definition revenue_table (entries : list (Timestamp * R)) : Table :=
  {| columns := ["date"; "revenue"];
     rows := (λ e : Timestamp * R, [VTime e.1; VNumber e.2]) <$> entries |}.

Definition revenue_map : ColumnMap :=
  buildColumnMap (Infer.inferCanonical <$> ["date"; "revenue"]).

(** The rows of [cleaned] over a [revenue_table]. *)
Definition revenue_rows (entries : list (Timestamp * R)) : list CleanedRow :=
  (λ e : Timestamp * R,
     {| c_order_id := VNull; c_product := VNull; c_ts := Some e.1;
        c_quantity := None; c_price := None; c_channel := VNull; c_city := VNull;
        c_state := VNull; c_zip := VNull; c_revenue := Some e.2 |}) <$> entries.

(** The daily series 100, 100, 100, 100, 1000. *)
Definition spike : list (Timestamp * R) :=
  [(midnight 2024 1 1, 100%R); (midnight 2024 1 2, 100%R);
   (midnight 2024 1 3, 100%R); (midnight 2024 1 4, 100%R);
   (midnight 2024 1 5, 1000%R)].

(** Revenue in February, March and April 2024. *)
Definition forecast : list (Timestamp * R) :=
  [(midnight 2024 2 10, 100%R); (midnight 2024 3 10, 50%R);
   (midnight 2024 4 10, 30%R)].

Definition mid_march : date := {| year := 2024; month := 3; day := 15 |}.

(** A table with no row. *)
Definition no_orders : Table := {| columns := order_columns; rows := [] |}.

(** A mapping that names a column under the key original_column only. *)
Definition fallback_map : ColumnMap := {[ "original_column" := "Date" ]}.

End Demo.

(** ** Growth figures in the words of the specification *)

Module GrowthSpec.
Import Sql Calendar.

(** The revenue of the days selected by [p]: the sum of their daily totals
    (a day without revenue counts for nothing). *)
Definition bucket_total (p : date → bool) (days : list (date * option R)) : R :=
  Rsum (non_null (snd <$> filter (λ e : date * option R, p e.1) days)).

Definition in_month (y m : Z) (d : date) : bool :=
  ((year d =? y) && (month d =? m))%Z.

Definition in_year (y : Z) (d : date) : bool := (year d =? y)%Z.

(** The revenue of calendar month [m] of year [y], and of calendar year
    [y]: revenue summed per day, then per calendar bucket. *)
Definition month_revenue (y m : Z) (rs : list CleanedRow) : R :=
  bucket_total (in_month y m) (Analytics.daily_revenue rs).

Definition year_revenue (y : Z) (rs : list CleanedRow) : R :=
  bucket_total (in_year y) (Analytics.daily_revenue rs).


(** The calendar month before the month of [today]. *)
Definition prev_month_of (today : date) : Z * Z :=
  if (month today =? 1)%Z then ((year today - 1)%Z, 12%Z)
  else (year today, (month today - 1)%Z).

(** [(this - prev) / prev], null when [prev] is zero or absent. *)
Definition growth (this prev : R) : option R :=
  if decide (prev = 0%R) then None else Some ((this - prev) / prev)%R.

(** Month-over-month and year-over-year growth between calendar buckets
    relative to [today]. *)
Definition momGrowthPct (today : date) (rs : list CleanedRow) : option R :=
  growth (month_revenue (year today) (month today) rs)
         (month_revenue (prev_month_of today).1 (prev_month_of today).2 rs).

Definition yoyGrowthPct (today : date) (rs : list CleanedRow) : option R :=
  growth (year_revenue (year today) rs) (year_revenue (year today - 1) rs).



End GrowthSpec.

(** ** Schema inference on upload ([handleFile], upload route [POST]) *)

Module Upload.

(** [columns.map(inferCanonical)] *)
Definition mappings (columns : list string) : list Mapping :=
  Infer.inferCanonical <$> columns.

(** [mappings.find((m) => m.canonicalName === "timestamp")]: the column
    whose minimum and maximum become [minDate] and [maxDate]. *)
Definition tsMapping (ms : list Mapping) : option Mapping :=
  find (λ m, bool_decide (canonicalName m = Some timestamp)) ms.

(** [mappings.filter((m) => m.canonicalName)]: the columns whose distinct
    values are counted. *)
Definition mapped_columns (ms : list Mapping) : list Mapping :=
  filter (λ m, is_Some (canonicalName m)) ms.

(** The mapping [runAggregates] and [runChat] pass to
    [materializeCleanedView]: [buildColumnMap(result.schema)]. *)
Definition column_map (columns : list string) : ColumnMap :=
  buildColumnMap (mappings columns).

End Upload.

(** ** Quoted identifiers ([qi] of [materializeCleanedView], [quoteIdent]) *)

Module Quote.

(** The double quote character. *)
Definition dq : ascii := Ascii.ascii_of_N 34.

(** [s.replace(/Q/g, by)] where Q is the double quote: every double quote of
    [s] replaced by [by]. *)
Fixpoint replace_quotes (by_ : string) (s : string) : string :=
  match s with
  | EmptyString => EmptyString
  | String c t =>
      if Ascii.eqb c dq then by_ +:+ replace_quotes by_ t
      else String c (replace_quotes by_ t)
  end.

(** [qi], as the text it contributes to the statement: the name between
    double quotes with every double quote doubled, or the word NULL. *)
Definition qi (v : option string) : string :=
  match v with
  | Some s =>
      if truthy s
      then String dq (replace_quotes (String dq (String dq "")) s +:+ String dq "")
      else "NULL"
  | None => "NULL"
  end.

(** [quoteIdent] (components/UploadInference.tsx): the name between double
    quotes with every double quote deleted. *)
Definition quoteIdent (name : string) : string :=
  String dq (replace_quotes "" name +:+ String dq "").

(** How a SQL statement is read at a delimited identifier, after the
    opening quote: two double quotes in a row stand for one double quote of
    the name, a single one ends the identifier.  The result is the name and
    the rest of the statement; there is none when the identifier is not
    closed. *)
Fixpoint read_body (s : string) : option (string * string) :=
  match s with
  | EmptyString => None
  | String c t =>
      if Ascii.eqb c dq
      then match t with
           | String c' t' =>
               if Ascii.eqb c' dq
               then (λ r : string * string, (String dq r.1, r.2)) <$> read_body t'
               else Some (EmptyString, t)
           | EmptyString => Some (EmptyString, EmptyString)
           end
      else (λ r : string * string, (String c r.1, r.2)) <$> read_body t
  end.

Definition read_delimited (s : string) : option (string * string) :=
  match s with
  | String c t => if Ascii.eqb c dq then read_body t else None
  | EmptyString => None
  end.

Definition starts_with_quote (s : string) : bool :=
  match s with String c _ => Ascii.eqb c dq | EmptyString => false end.

Definition has_quote (s : string) : bool := includes (String dq "") s.

End Quote.

(** ** Upload history (components/UploadInference.tsx) *)

Module History.

(** [HistoryEntry].  The optional property [lastRefreshed] is absent
    ([None]), null ([Some None]) or a string. *)
Record HistoryEntry := {
  hash : string;
  title : string;
  rowCount : R;
  lastRefreshed : option (option string)
}.

(** [{ ...old, ...entry }]: the properties present in [entry] replace those
    of [old]. *)
Definition spread (old entry : HistoryEntry) : HistoryEntry :=
  {| hash := hash entry;
     title := title entry;
     rowCount := rowCount entry;
     lastRefreshed :=
       match lastRefreshed entry with
       | Some v => Some v
       | None => lastRefreshed old
       end |}.

(** [upsertHistoryEntry] *)
Definition upsertHistoryEntry (entries : list HistoryEntry) (entry : HistoryEntry)
    : list HistoryEntry :=
  match list_find (λ e, hash e = hash entry) entries with
  | None => entries ++ [entry]
  | Some (idx, old) => <[idx := spread old entry]> entries
  end.

(** The list kept by [deleteHistoryEntry]:
    [current.filter((entry) => entry.hash !== hash)]. *)
Definition deleteHistoryEntry (h : string) (current : list HistoryEntry)
    : list HistoryEntry :=
  filter (λ e, hash e ≠ h) current.

(** [Partial<HistoryEntry>], the overrides of [updateHistoryEntry]. *)
Record Overrides := {
  o_title : option string;
  o_rowCount : option R;
  o_lastRefreshed : option (option string)
}.

(** [a ?? b] on a property that may be absent or null. *)
Definition coalesce {A} (a : option (option A)) (b : option A) : option A :=
  match a with Some (Some x) => Some x | _ => b end.

(** The list computed by [updateHistoryEntry] from the current one. *)
Definition updateHistoryEntry (current : list HistoryEntry) (h : string)
    (overrides : Overrides) : list HistoryEntry :=
  let existing := snd <$> list_find (λ e, hash e = h) current in
  let rowCount' :=
    default (default 0%R (rowCount <$> existing)) (o_rowCount overrides) in
  let title' := default (default h (title <$> existing)) (o_title overrides) in
  let lastRefreshed' :=
    coalesce (o_lastRefreshed overrides)
      (coalesce (existing ≫= lastRefreshed) None) in
  upsertHistoryEntry current
    {| hash := h; title := title'; rowCount := rowCount';
       lastRefreshed := Some lastRefreshed' |}.

End History.

(** ** Insights ([runAggregates], [buildInsightPayload], insights route) *)

Module Insights.

(** [AggregateResult] of the component: every part may be null. *)
Record AggView := {
  av_summary : option SummaryResult;
  av_timeseries : option Timeseries;
  av_products : option (list ProductRow);
  av_geo : option (list GeoRow);
  av_channels : option (list ChannelRow);
  av_anomalies : option (list AnomalyRow)
}.






End Insights.

(** ** The chat router with its tables ([routeChatQuestion]) *)

Module Router.
Import Sql Calendar Analytics.

(** A row of the month and year tables. *)
Record PeriodRow := { period : date; rev : option R }.

(** The table of an answer: the rows of one query, or the summary of the
    dashboard. *)
Inductive ChatTable :=
| Products (table : list ProductRow)
| Channels (table : list ChannelRow)
| Geo (table : list GeoRow)
| Anomalies (table : list AnomalyRow)
| Months (table : list PeriodRow)
| Years (table : list PeriodRow)
| Summary (table : list SummaryResult).


(** [SELECT product, SUM(revenue) AS revenue, SUM(quantity) AS quantity
    FROM cleaned GROUP BY 1 ORDER BY revenue DESC LIMIT 5] *)
Definition top_products (rs : list CleanedRow) : list ProductRow :=
  take 5
    (order_by (λ a b, desc_leb (p_revenue a) (p_revenue b))
       ((λ g : Value * list CleanedRow,
           {| p_product := g.1;
              p_revenue := sum (c_revenue <$> g.2);
              p_quantity := sum (c_quantity <$> g.2) |})
          <$> group_by c_product rs)).

(** [SELECT channel, SUM(revenue) AS revenue, SUM(quantity) AS quantity
    FROM cleaned GROUP BY 1 ORDER BY revenue DESC LIMIT 5] *)
Definition channels (rs : list CleanedRow) : list ChannelRow :=
  take 5
    (order_by (λ a b, desc_leb (ch_revenue a) (ch_revenue b))
       ((λ g : Value * list CleanedRow,
           {| ch_channel := g.1;
              ch_revenue := sum (c_revenue <$> g.2);
              ch_quantity := sum (c_quantity <$> g.2) |})
          <$> group_by c_channel rs)).

(** [SELECT state, city, SUM(revenue) AS revenue, SUM(quantity) AS quantity
    FROM cleaned GROUP BY 1,2 ORDER BY revenue DESC LIMIT 5] *)
Definition geo (rs : list CleanedRow) : list GeoRow :=
  take 5
    (order_by (λ a b, desc_leb (g_revenue a) (g_revenue b))
       ((λ g : (Value * Value) * list CleanedRow,
           {| g_state := g.1.1; g_city := g.1.2;
              g_revenue := sum (c_revenue <$> g.2);
              g_quantity := sum (c_quantity <$> g.2) |})
          <$> group_by (λ r, (c_state r, c_city r)) rs)).

(** The anomalies query of the chat: the z-score of every day, where the
    deviation is not NULL, by decreasing absolute value, five rows at
    most. *)
Definition anomalies (rs : list CleanedRow) : list AnomalyRow :=
  let days := daily_revenue rs in
  let avg_rev := avg (snd <$> days) in
  let sd_rev := stddev_samp (snd <$> days) in
  let joined :=
    (λ p : date * option R,
       {| a_date := p.1; a_revenue := p.2;
          a_zscore := zscore p.2 avg_rev sd_rev |}) <$> days in
  take 5
    (order_by (λ a b, desc_leb (Rabs <$> a_zscore a) (Rabs <$> a_zscore b))
       (filter (λ _, is_Some sd_rev) joined)).

(** [WITH m AS (SELECT DATE_TRUNC(unit, ts) AS m, SUM(revenue) AS rev FROM
    cleaned WHERE ts IS NOT NULL GROUP BY 1) SELECT m, rev FROM m ORDER BY m
    DESC LIMIT 2], for the unit month or year. *)
Definition periods (trunc : Timestamp → date) (rs : list CleanedRow)
    : list PeriodRow :=
  take 2
    (order_by (λ a b, date_leb (period b) (period a))
       ((λ g : date * list CleanedRow,
           {| period := g.1; rev := sum (c_revenue <$> g.2) |})
          <$> buckets trunc rs)).

(** [routeChatQuestion]: the first rule that matches the lower-cased
    question names the template and runs its query on [cleaned]; no rule
    matching, the answer is the summary of the dashboard, and no query
    runs. *)
Definition routeChatQuestion `{Engine} (c : Conn) (agg : Insights.AggView)
    (q : string) : option (Chat.Template * ChatTable) :=
  let text := JsString.toLowerCase q in
  if JsString.includes "top" text && JsString.includes "product" text then
    (λ rs, (Chat.top_products, Products (top_products rs))) <$> Cleaned.scan c
  else if JsString.includes "channel" text then
    (λ rs, (Chat.channels, Channels (channels rs))) <$> Cleaned.scan c
  else if JsString.includes "state" text || JsString.includes "city" text
          || JsString.includes "geo" text then
    (λ rs, (Chat.geo, Geo (geo rs))) <$> Cleaned.scan c
  else if JsString.includes "anomaly" text || JsString.includes "outlier" text then
    (λ rs, (Chat.anomalies, Anomalies (anomalies rs))) <$> Cleaned.scan c
  else if JsString.includes "mom" text || JsString.includes "month" text
          || JsString.includes "growth" text then
    (λ rs, (Chat.mom_growth, Months (periods (λ t, trunc_month (trunc_day t)) rs)))
      <$> Cleaned.scan c
  else if JsString.includes "yoy" text || JsString.includes "year" text then
    (λ rs, (Chat.yoy_growth, Years (periods (λ t, trunc_year (trunc_day t)) rs)))
      <$> Cleaned.scan c
  else
    Some (Chat.summary,
          Summary (match Insights.av_summary agg with Some s => [s] | None => [] end)).


End Router.

(** ** Display helpers (components/UploadInference.tsx) *)

Module Display.

(** [Math.round]: the nearest integer, a half rounding up. *)
Definition round (x : R) : Z := Zfloor (x + 1 / 2).

(** [Math.max(x, ...xs)] *)
Definition max_of (x : R) (xs : list R) : R := foldl Rmax x xs.

(** [barWidth(value, rows)]: the width of the revenue bar of a product;
    the result is the number in front of the percent sign. *)
Definition barWidth (value : option R) (rows : option (list ProductRow)) : Z :=
  match rows, value with
  | Some (r :: rs), Some v =>
      let max := max_of (default 0%R (p_revenue r))
                   ((λ r, default 0%R (p_revenue r)) <$> rs) in
      if decide (max <= 0)%R then 0%Z
      else Z.min 100 (round (v / max * 100))
  | _, _ => 0%Z
  end.

End Display.

(** A string without white space: the keywords of the chat router are
    such strings. *)
Fixpoint no_space (s : string) : bool :=
  match s with
  | EmptyString => true
  | String c t => negb (is_space c) && no_space t
  end.
(** ** Facts about strings *)

(** [sub] occurs in [s]. *)
Definition occurs_in (sub s : string) : Prop :=
  ∃ pre post : string, s = pre +:+ sub +:+ post.

Lemma prefix_true_app (p s : string) :
  String.prefix p s = true → ∃ post, s = p +:+ post.
Proof.
  revert s; induction p as [|c p IH]; intros s H.
  - by exists s.
  - destruct s as [|d s]; simpl in H; [done|].
    destruct (Ascii.ascii_dec c d) as [->|]; [|done].
    destruct (IH _ H) as [post ->]. by exists post.
Qed.

Lemma prefix_app_true (p post : string) : String.prefix p (p +:+ post) = true.
Proof.
  induction p as [|c p IH]; simpl.
  - by destruct post.
  - by destruct (Ascii.ascii_dec c c).
Qed.

Lemma includes_cons (sub : string) (c : ascii) (s : string) :
  includes sub (String c s)
  = if String.prefix sub (String c s) then true else includes sub s.
Proof. reflexivity. Qed.

Lemma includes_occurs (sub s : string) :
  includes sub s = true ↔ occurs_in sub s.
Proof.
  split.
  - induction s as [|c s IH].
    + destruct sub; [|done]. intros _. by exists "", "".
    + rewrite includes_cons.
      destruct (String.prefix sub (String c s)) eqn:E.
      * intros _. destruct (prefix_true_app _ _ E) as [post ->].
        by exists "", post.
      * intros H. destruct (IH H) as (pre & post & ->).
        by exists (String c pre), post.
  - intros (pre & post & ->). induction pre as [|c pre IH].
    + change ("" +:+ sub +:+ post) with (sub +:+ post).
      destruct (sub +:+ post) eqn:E.
      * by destruct sub.
      * rewrite includes_cons, <- E. by rewrite prefix_app_true.
    + change (String c pre +:+ sub +:+ post)
        with (String c (pre +:+ sub +:+ post)).
      rewrite includes_cons, IH. by destruct (String.prefix _ _).
Qed.

(** ** Facts about rule lists *)

Section rules.
Context {A : Type}.
Implicit Types (rules : list (A * (string → bool))) (text : string).

Lemma first_match_cons rules r text :
  Rules.first_match (r :: rules) text
  = if snd r text then Some (fst r) else Rules.first_match rules text.
Proof. unfold Rules.first_match; simpl. by destruct (snd r text). Qed.

(** The first matching rule is the one returned. *)
Lemma first_match_first rules text (i : nat) f re :
  rules !! i = Some (f, re) → re text = true →
  (∀ j g re', j < i → rules !! j = Some (g, re') → re' text = false) →
  Rules.first_match rules text = Some f.
Proof.
  revert i; induction rules as [|r rules IH]; intros i Hi Hre Hbefore; [done|].
  rewrite first_match_cons. destruct i as [|i]; simpl in Hi.
  - injection Hi as ->. simpl. by rewrite Hre.
  - destruct r as [g re']. simpl.
    rewrite (Hbefore 0 g re'); [|lia|done].
    apply (IH i); [done..|].
    intros j h re'' Hj Hl. apply (Hbefore (S j) h re''); [lia|done].
Qed.

(** When the rule at position [i] matches, the scan stops at or before
    [i]. *)
Lemma first_match_stops rules text (i : nat) f re :
  rules !! i = Some (f, re) → re text = true →
  ∃ (k : nat) h re', (k ≤ i)%nat ∧ rules !! k = Some (h, re') ∧ re' text = true
             ∧ Rules.first_match rules text = Some h.
Proof.
  revert i; induction rules as [|r rules IH]; intros i Hi Hre; [done|].
  rewrite first_match_cons. destruct r as [g re0]; simpl.
  destruct (re0 text) eqn:E0.
  - exists 0, g, re0. repeat split; [lia|done..].
  - destruct i as [|i]; simpl in Hi; [congruence|].
    destruct (IH i Hi Hre) as (k & h & re' & Hk & Hl & Hm & Hf).
    exists (S k), h, re'. repeat split; [lia|done..].
Qed.

(** With pairwise distinct results, a rule below a matching rule never
    wins. *)
Lemma first_match_precedence rules text (i j : nat) f g ref reg :
  NoDup (fst <$> rules) → i < j →
  rules !! i = Some (f, ref) → rules !! j = Some (g, reg) →
  ref text = true → Rules.first_match rules text ≠ Some g.
Proof.
  intros Hnd Hij Hi Hj Hre Hg.
  destruct (first_match_stops _ _ _ _ _ Hi Hre) as (k & h & re' & Hk & Hl & _ & Hf).
  assert (h = g) as -> by congruence.
  assert (k = j); [|lia].
  eapply (NoDup_lookup (fst <$> rules)); [done|..];
    rewrite list_lookup_fmap; [by rewrite Hl|by rewrite Hj].
Qed.
End rules.

(** ** The mapper *)

(** [rule] when no field is assigned yet. *)
Lemma rule_fresh re f msg lower c rs ts :
  Infer.rule re f msg lower
    {| Infer.canonical := None; Infer.conf := c; Infer.reasons := rs;
       Infer.tested := ts |}
  = if re lower
    then {| Infer.canonical := Some f;
            Infer.conf := (c + Infer.score true (Some 0.4))%R;
            Infer.reasons := rs ++ [msg]; Infer.tested := ts ++ [f] |}
    else {| Infer.canonical := None; Infer.conf := c; Infer.reasons := rs;
            Infer.tested := ts ++ [f] |}.
Proof. reflexivity. Qed.

(** [rule] once a field is assigned: nothing is evaluated. *)
Lemma rule_assigned re f msg lower st g :
  Infer.canonical st = Some g → Infer.rule re f msg lower st = st.
Proof. unfold Infer.rule. by intros ->. Qed.

(** The sequence of [if] statements is a first-match scan of
    [Infer.spec_rules], and it evaluates exactly the scanned patterns. *)
Lemma run_scan (lower : string) :
  Infer.canonical (Infer.run lower) = Rules.first_match Infer.spec_rules lower
  ∧ Infer.tested (Infer.run lower) = Rules.scanned Infer.spec_rules lower.
Proof.
  unfold Infer.run, Infer.spec_rules.
  repeat (rewrite first_match_cons; cbn [fst snd Rules.scanned]).
  repeat (rewrite rule_fresh;
          match goal with
          | |- context [if ?re lower then _ else _] =>
              destruct (re lower);
              [ repeat (erewrite rule_assigned; [|reflexivity]); by split | ]
          end).
  by split.
Qed.

Lemma infer_rules_NoDup : NoDup (fst <$> Infer.spec_rules).
Proof. apply (bool_decide_unpack _). by vm_compute. Qed.

(** C1. For every raw column name, [inferCanonical] lowercases and trims
    the name, then scans the rule list in the precedence order order_id,
    product, timestamp, quantity, price, revenue, channel, city, state, zip:
    the field returned is the one of the first rule whose pattern matches,
    the patterns evaluated are exactly those up to and including that rule,
    and a name that matches several rules is never assigned the field of a
    rule below a matching one. *)
Theorem inferCanonical_first_match_wins (name : string) :
  let lower := trim (toLowerCase name) in
  fst <$> Infer.spec_rules
    = [order_id; product; timestamp; quantity; price; revenue; channel; city;
       state; zip]
  ∧ canonicalName (Infer.inferCanonical name)
    = Rules.first_match Infer.spec_rules lower
  ∧ Infer.tested_rules name = Rules.scanned Infer.spec_rules lower
  ∧ (∀ (i : nat) f re,
       Infer.spec_rules !! i = Some (f, re) → re lower = true →
       (∀ (j : nat) g re', j < i → Infer.spec_rules !! j = Some (g, re') →
                           re' lower = false) →
       canonicalName (Infer.inferCanonical name) = Some f)
  ∧ (∀ (i j : nat) f g ref reg, i < j →
       Infer.spec_rules !! i = Some (f, ref) →
       Infer.spec_rules !! j = Some (g, reg) →
       ref lower = true →
       canonicalName (Infer.inferCanonical name) ≠ Some g).
Proof.
  intros lower.
  assert (canonicalName (Infer.inferCanonical name)
          = Rules.first_match Infer.spec_rules lower) as Hc
    by apply (run_scan lower).
  split; [done|]. split; [done|]. split; [apply (run_scan lower)|]. split.
  - intros i f re Hi Hre Hbefore. rewrite Hc.
    by apply (first_match_first _ _ i f re).
  - intros i j f g ref reg Hij Hi Hj Hre. rewrite Hc.
    by apply (first_match_precedence _ _ i j f g ref reg infer_rules_NoDup).
Qed.

(** The example of the specification: "order_date" matches the patterns of
    order_id and of timestamp, and is assigned order_id. *)
Example infer_order_date :
  Infer.re_order_id "order_date" = true
  ∧ Infer.re_timestamp "order_date" = true
  ∧ canonicalName (Infer.inferCanonical "Order_Date ") = Some order_id
  ∧ Infer.tested_rules "Order_Date " = [order_id].
Proof. by vm_compute. Qed.

(** The word boundaries of the state and zip patterns: an underscore is a
    word character, so "ship_state" is not matched, while "ship state"
    is. *)
Example infer_state_boundaries :
  canonicalName (Infer.inferCanonical "ship_state") = None
  ∧ canonicalName (Infer.inferCanonical "ship state") = Some state
  ∧ canonicalName (Infer.inferCanonical "Zip") = Some zip
  ∧ canonicalName (Infer.inferCanonical "zipcode") = None.
Proof. by vm_compute. Qed.

(** C10. Every column name whose lowercased, trimmed form contains "id" or
    "order" anywhere is assigned order_id with confidence 0.9, and no later
    rule is evaluated. *)
Theorem inferCanonical_id_or_order (name : string) :
  occurs_in "id" (trim (toLowerCase name))
  ∨ occurs_in "order" (trim (toLowerCase name)) →
  canonicalName (Infer.inferCanonical name) = Some order_id
  ∧ confidence (Infer.inferCanonical name) = 0.9%R
  ∧ Infer.tested_rules name = [order_id].
Proof.
  intros H.
  assert (Infer.re_order_id (trim (toLowerCase name)) = true) as Hre.
  { unfold Infer.re_order_id.
    destruct H as [H|H]; apply includes_occurs in H; rewrite H;
      by rewrite ?orb_true_r. }
  unfold Infer.inferCanonical, Infer.tested_rules, Infer.normalize, Infer.run.
  rewrite rule_fresh, Hre.
  repeat (erewrite rule_assigned; [|reflexivity]).
  cbn [Infer.canonical Infer.conf Infer.tested canonicalName confidence
       Infer.score app].
  repeat split. unfold Rmin. destruct (Rle_dec _ _); lra.
Qed.

(** The names given with C10: "paid", "holiday", "product_id" and
    "valid_from" all contain "id". *)
Lemma inferCanonical_id_or_order_witness :
  Forall (λ name, canonicalName (Infer.inferCanonical name) = Some order_id
                  ∧ confidence (Infer.inferCanonical name) = 0.9%R
                  ∧ Infer.tested_rules name = [order_id])
         ["paid"; "holiday"; "product_id"; "valid_from"; "Reorder Level"].
Proof.
  repeat apply Forall_cons_2; [..|apply Forall_nil_2].
  - apply inferCanonical_id_or_order. left. by exists "pa", "".
  - apply inferCanonical_id_or_order. left. by exists "hol", "ay".
  - apply inferCanonical_id_or_order. left. by exists "product_", "".
  - apply inferCanonical_id_or_order. left. by exists "val", "_from".
  - apply inferCanonical_id_or_order. right. by exists "re", " level".
Defined.

(** ** The router *)

Ltac in_list := repeat first [apply list_elem_of_here | apply list_elem_of_further].

Lemma chat_rules_NoDup : NoDup (fst <$> Chat.spec_rules).
Proof.
  apply (bool_decide_unpack _). by vm_compute.
Qed.

Lemma route_template_scan (q : string) :
  Chat.route_template q
  = default Chat.summary (Rules.first_match Chat.spec_rules (toLowerCase q)).
Proof.
  unfold Chat.route_template, Chat.spec_rules.
  repeat (rewrite first_match_cons; cbn [fst snd]).
  repeat match goal with
         | |- context [if ?b then _ else _] => destruct b; [done|]
         end.
  done.
Qed.

(** C5. For every question, [routeChatQuestion] classifies the lowercased
    text by substring presence against the fixed rule order top_products,
    channels, geo, anomalies, mom_growth, yoy_growth, with summary as the
    default: the template is the one of the first rule that matches, a rule
    below a matching rule never wins, and "what are my top products by
    channel" routes to top_products although it contains "channel". *)
Theorem routeChatQuestion_first_match (q : string) :
  let text := toLowerCase q in
  Chat.spec_rules
    = [(Chat.top_products, λ t, includes "top" t && includes "product" t);
       (Chat.channels, λ t, includes "channel" t);
       (Chat.geo, λ t, includes "state" t || includes "city" t || includes "geo" t);
       (Chat.anomalies, λ t, includes "anomaly" t || includes "outlier" t);
       (Chat.mom_growth,
        λ t, includes "mom" t || includes "month" t || includes "growth" t);
       (Chat.yoy_growth, λ t, includes "yoy" t || includes "year" t)]
  ∧ Chat.route_template q
    = default Chat.summary (Rules.first_match Chat.spec_rules text)
  ∧ (∀ (i : nat) f re,
       Chat.spec_rules !! i = Some (f, re) → re text = true →
       (∀ (j : nat) g re', j < i → Chat.spec_rules !! j = Some (g, re') →
                           re' text = false) →
       Chat.route_template q = f)
  ∧ (∀ (i j : nat) f g ref reg, i < j →
       Chat.spec_rules !! i = Some (f, ref) →
       Chat.spec_rules !! j = Some (g, reg) →
       ref text = true → Chat.route_template q ≠ g)
  ∧ ((∀ f re, (f, re) ∈ Chat.spec_rules → re text = false) →
     Chat.route_template q = Chat.summary)
  ∧ includes "channel" (toLowerCase "what are my top products by channel") = true
  ∧ Chat.route_template "what are my top products by channel" = Chat.top_products.
Proof.
  intros text; subst text. split; [done|]. split; [apply route_template_scan|].
  split; [|split; [|split]].
  - intros i f re Hi Hre Hbefore. rewrite route_template_scan.
    by rewrite (first_match_first _ _ i f re).
  - intros i j f g ref reg Hij Hi Hj Hre. rewrite route_template_scan.
    destruct (first_match_stops _ _ _ _ _ Hi Hre) as (k & h & re' & Hk & Hl & _ & Hf).
    rewrite Hf. simpl. intros ->.
    assert (k = j); [|lia].
    eapply (NoDup_lookup (fst <$> Chat.spec_rules)); [apply chat_rules_NoDup|..];
      rewrite list_lookup_fmap; [by rewrite Hl|by rewrite Hj].
  - intros Hnone. unfold Chat.route_template.
    rewrite (Hnone _ _ (list_elem_of_here _ _)); simpl.
    rewrite (Hnone Chat.channels (λ t, includes "channel" t)) by in_list.
    rewrite (Hnone Chat.geo
               (λ t, includes "state" t || includes "city" t || includes "geo" t))
      by in_list.
    rewrite (Hnone Chat.anomalies
               (λ t, includes "anomaly" t || includes "outlier" t)) by in_list.
    rewrite (Hnone Chat.mom_growth
               (λ t, includes "mom" t || includes "month" t || includes "growth" t))
      by in_list.
    by rewrite (Hnone Chat.yoy_growth (λ t, includes "yoy" t || includes "year" t))
      by in_list.
  - by vm_compute.
Qed.

(** ** The cleaned view *)

Section cleaned.
Context `{Engine}.
Import Sql Js.

Lemma as_double_of_double (x : option R) : as_double (of_double x) = x.
Proof. by destruct x. Qed.

Lemma as_timestamp_of_timestamp (t : option Timestamp) :
  as_timestamp (of_timestamp t) = t.
Proof. by destruct t. Qed.

Lemma materialize_Some (c c' : Conn) (mapping : ColumnMap) :
  Cleaned.materializeCleanedView c mapping = Some c' →
  Cleaned.view_binds (columns (data c)) (Cleaned.select_list mapping) = true
  ∧ c' = {| data := data c; cleaned := Some (Cleaned.select_list mapping) |}.
Proof.
  unfold Cleaned.materializeCleanedView, Cleaned.create_or_replace_view.
  destruct (Cleaned.view_binds _ _); [|done]. by intros [= <-].
Qed.

(** After a successful [materializeCleanedView], a scan of the view never
    fails and yields one row per row of [data]. *)
Lemma scan_materialized (c c' : Conn) (mapping : ColumnMap) :
  Cleaned.materializeCleanedView c mapping = Some c' →
  Cleaned.scan c'
  = Some (Cleaned.eval_row (columns (data c)) (Cleaned.select_list mapping)
            <$> rows (data c)).
Proof.
  intros [Hb ->]%materialize_Some. unfold Cleaned.scan; simpl. by rewrite Hb.
Qed.

Lemma scan_materialized_lookup (c c' : Conn) (mapping : ColumnMap)
    (i : nat) (raw : list Value) :
  Cleaned.materializeCleanedView c mapping = Some c' →
  rows (data c) !! i = Some raw →
  ∃ rs, Cleaned.scan c' = Some rs
        ∧ length rs = length (rows (data c))
        ∧ rs !! i = Some (Cleaned.eval_row (columns (data c))
                            (Cleaned.select_list mapping) raw).
Proof.
  intros Hm Hi. eexists. split; [by apply scan_materialized|].
  split; [by rewrite length_fmap|]. by rewrite list_lookup_fmap, Hi.
Qed.

(** The revenue cell of a row of the view. *)
Lemma eval_row_revenue (cols : list string) (mapping : ColumnMap) (raw : list Value) :
  c_revenue (Cleaned.eval_row cols (Cleaned.select_list mapping) raw)
  = match Cleaned.mapped mapping "revenue" with
    | Some col => try_cast_double (cell cols raw col)
    | None =>
        match Cleaned.mapped mapping "price", Cleaned.mapped mapping "quantity" with
        | Some p, Some q =>
            mul (try_cast_double (cell cols raw p)) (try_cast_double (cell cols raw q))
        | _, _ => None
        end
    end.
Proof.
  unfold Cleaned.eval_row, Cleaned.select_list, Cleaned.mapped, truthy_opt, Cleaned.qi.
  cbn [c_revenue v_revenue].
  destruct (mapping !! "revenue") as [r|], (mapping !! "price") as [p|],
    (mapping !! "quantity") as [q|];
    repeat match goal with
           | |- context [truthy ?s] => destruct (truthy s) eqn:?
           end;
    cbn [eval andb]; by rewrite ?as_double_of_double.
Qed.

(** The cells of the columns that are read from one key of the mapping. *)
Lemma eval_row_unmapped (cols : list string) (mapping : ColumnMap) (raw : list Value) :
  let r := Cleaned.eval_row cols (Cleaned.select_list mapping) raw in
  (Cleaned.mapped mapping "order_id" = None → c_order_id r = VNull)
  ∧ (Cleaned.mapped mapping "product" = None → c_product r = VNull)
  ∧ (Cleaned.mapped mapping "quantity" = None → c_quantity r = None)
  ∧ (Cleaned.mapped mapping "price" = None → c_price r = None)
  ∧ (Cleaned.mapped mapping "channel" = None → c_channel r = VNull)
  ∧ (Cleaned.mapped mapping "city" = None → c_city r = VNull)
  ∧ (Cleaned.mapped mapping "state" = None → c_state r = VNull)
  ∧ (Cleaned.mapped mapping "zip" = None → c_zip r = VNull).
Proof.
  unfold Cleaned.eval_row, Cleaned.select_list, Cleaned.mapped, truthy_opt, Cleaned.qi.
  cbn [c_order_id c_product c_quantity c_price c_channel c_city c_state c_zip
       v_order_id v_product v_quantity v_price v_channel v_city v_state v_zip].
  repeat split;
    match goal with
    | |- context [mapping !! ?k] => destruct (mapping !! k) as [s|]
    end; try done; by destruct (truthy s).
Qed.

(** The ts cell of a row of the view. *)
Lemma eval_row_ts (cols : list string) (mapping : ColumnMap) (raw : list Value) :
  c_ts (Cleaned.eval_row cols (Cleaned.select_list mapping) raw)
  = match Cleaned.date_column mapping with
    | Some col => try_cast_timestamp (cell cols raw col)
    | None => None
    end.
Proof.
  unfold Cleaned.eval_row, Cleaned.select_list, Cleaned.date_column, truthy_opt, Cleaned.qi.
  cbn [c_ts v_ts].
  destruct (nullish _ _) as [s|]; [|done].
  destruct (truthy s); [|done]. cbn [eval].
  by rewrite as_timestamp_of_timestamp.
Qed.

End cleaned.

(** C2. For every mapping and every row of the raw table, once the view is
    created the revenue cell of the corresponding row of [cleaned] is the
    numeric cast of the mapped revenue column when revenue is mapped;
    otherwise the product of the numeric casts of the price and quantity
    columns when both are mapped; otherwise NULL. *)
Theorem cleaned_revenue_cell `{Engine} (mapping : ColumnMap) (c c' : Conn)
    (i : nat) (raw : list Value) :
  Cleaned.materializeCleanedView c mapping = Some c' →
  rows (data c) !! i = Some raw →
  ∃ rs r,
    Cleaned.scan c' = Some rs
    ∧ length rs = length (rows (data c))
    ∧ rs !! i = Some r
    ∧ c_revenue r
      = match Cleaned.mapped mapping "revenue" with
        | Some col => try_cast_double (Sql.cell (columns (data c)) raw col)
        | None =>
            match Cleaned.mapped mapping "price", Cleaned.mapped mapping "quantity" with
            | Some p, Some q =>
                Sql.mul (try_cast_double (Sql.cell (columns (data c)) raw p))
                        (try_cast_double (Sql.cell (columns (data c)) raw q))
            | _, _ => None
            end
        end.
Proof.
  intros Hm Hi.
  destruct (scan_materialized_lookup c c' mapping i raw Hm Hi) as (rs & Hs & Hl & Hr).
  exists rs, (Cleaned.eval_row (columns (data c)) (Cleaned.select_list mapping) raw).
  repeat split; [done..|]. apply eval_row_revenue.
Qed.

(** The mapping inferred for the sample order table. *)
Example order_map_inferred :
  Demo.order_map
  = {[ "order_id" := "Order ID"; "product" := "Product"; "timestamp" := "Date";
       "quantity" := "Qty"; "price" := "Price"; "channel" := "Channel" ]}.
Proof. by vm_compute. Qed.

Lemma cleaned_revenue_cell_witness :
  ∃ rs r,
    Cleaned.scan (H := Demo.engine)
      {| data := Demo.orders;
         cleaned := Some (Cleaned.select_list Demo.order_map) |} = Some rs
    ∧ length rs = length (rows Demo.orders)
    ∧ rs !! 0%nat = Some r
    ∧ c_revenue r
      = match Cleaned.mapped Demo.order_map "revenue" with
        | Some col =>
            Sql.as_double
              (Sql.cell Demo.order_columns
                 [VText "A-1"; VText "tea"; VTime (Demo.midnight 2024 2 10);
                  VNumber 2; VNumber 50; VText "web"] col)
        | None =>
            match Cleaned.mapped Demo.order_map "price",
                  Cleaned.mapped Demo.order_map "quantity" with
            | Some p, Some q =>
                Sql.mul
                  (Sql.as_double
                     (Sql.cell Demo.order_columns
                        [VText "A-1"; VText "tea"; VTime (Demo.midnight 2024 2 10);
                         VNumber 2; VNumber 50; VText "web"] p))
                  (Sql.as_double
                     (Sql.cell Demo.order_columns
                        [VText "A-1"; VText "tea"; VTime (Demo.midnight 2024 2 10);
                         VNumber 2; VNumber 50; VText "web"] q))
            | _, _ => None
            end
        end.
Proof.
  apply (cleaned_revenue_cell (H := Demo.engine) Demo.order_map
           (Demo.fresh Demo.orders)
           {| data := Demo.orders;
              cleaned := Some (Cleaned.select_list Demo.order_map) |} 0);
    reflexivity.
Defined.

(** On the sample table no revenue column is mapped: revenue is price times
    quantity, and NULL where a cast fails. *)
Example orders_revenue :
  fmap (M := list) c_revenue <$> Demo.cleaned_of Demo.orders Demo.order_map
  = Some [Some (50 * 2)%R; Some (50 * 1)%R; None].
Proof. reflexivity. Qed.

(** A mapping that holds only the key original_column still feeds ts: the
    claim "ts is NULL for every row whenever no timestamp field is mapped"
    fails. *)
Lemma cleaned_ts_unmapped_counterexample :
  Demo.fallback_map !! "timestamp" = None
  ∧ fmap (M := list) c_ts <$> Demo.cleaned_of Demo.orders Demo.fallback_map
    = Some [Some (Demo.midnight 2024 2 10); Some (Demo.midnight 2024 3 10); None].
Proof. split; reflexivity. Qed.

(** C3 (amended). Once the view is created, in every row: each of order_id,
    product, quantity, price, channel, city, state and zip is NULL when its
    field is not mapped; ts is the safe cast of the column found under the
    first present key among timestamp, date and original_column, which is
    the mapped timestamp column when there is one, and ts is NULL when none
    of the three keys is present.  The scan of the view does not fail,
    whatever the cells hold. *)
Theorem cleaned_unmapped_columns `{Engine} (mapping : ColumnMap) (c c' : Conn)
    (i : nat) (raw : list Value) :
  Cleaned.materializeCleanedView c mapping = Some c' →
  rows (data c) !! i = Some raw →
  ∃ rs r,
    Cleaned.scan c' = Some rs
    ∧ rs !! i = Some r
    ∧ (Cleaned.mapped mapping "order_id" = None → c_order_id r = VNull)
    ∧ (Cleaned.mapped mapping "product" = None → c_product r = VNull)
    ∧ (Cleaned.mapped mapping "quantity" = None → c_quantity r = None)
    ∧ (Cleaned.mapped mapping "price" = None → c_price r = None)
    ∧ (Cleaned.mapped mapping "channel" = None → c_channel r = VNull)
    ∧ (Cleaned.mapped mapping "city" = None → c_city r = VNull)
    ∧ (Cleaned.mapped mapping "state" = None → c_state r = VNull)
    ∧ (Cleaned.mapped mapping "zip" = None → c_zip r = VNull)
    ∧ c_ts r
      = match Cleaned.date_column mapping with
        | Some col => try_cast_timestamp (Sql.cell (columns (data c)) raw col)
        | None => None
        end
    ∧ (∀ col, Cleaned.mapped mapping "timestamp" = Some col →
              c_ts r = try_cast_timestamp (Sql.cell (columns (data c)) raw col))
    ∧ (mapping !! "timestamp" = None → mapping !! "date" = None →
       mapping !! "original_column" = None → c_ts r = None).
Proof.
  intros Hm Hi.
  destruct (scan_materialized_lookup c c' mapping i raw Hm Hi) as (rs & Hs & Hl & Hr).
  exists rs, (Cleaned.eval_row (columns (data c)) (Cleaned.select_list mapping) raw).
  split; [done|]. split; [done|].
  pose proof (eval_row_unmapped (columns (data c)) mapping raw) as Hu.
  cbv zeta in Hu. destruct Hu as (?&?&?&?&?&?&?&?).
  do 8 (split; [done|]).
  rewrite eval_row_ts. split; [done|]. split.
  - intros col. unfold Cleaned.mapped, Cleaned.date_column.
    destruct (mapping !! "timestamp") as [s|]; [|done]. simpl.
    destruct (truthy s); [|done]. by intros [= ->].
  - intros Ht Hd Ho. unfold Cleaned.date_column. by rewrite Ht, Hd, Ho.
Qed.

Lemma cleaned_unmapped_columns_witness :
  ∃ rs r,
    Cleaned.scan (H := Demo.engine)
      {| data := Demo.orders;
         cleaned := Some (Cleaned.select_list Demo.order_map) |} = Some rs
    ∧ rs !! 2%nat = Some r
    ∧ (Cleaned.mapped Demo.order_map "order_id" = None → c_order_id r = VNull)
    ∧ (Cleaned.mapped Demo.order_map "product" = None → c_product r = VNull)
    ∧ (Cleaned.mapped Demo.order_map "quantity" = None → c_quantity r = None)
    ∧ (Cleaned.mapped Demo.order_map "price" = None → c_price r = None)
    ∧ (Cleaned.mapped Demo.order_map "channel" = None → c_channel r = VNull)
    ∧ (Cleaned.mapped Demo.order_map "city" = None → c_city r = VNull)
    ∧ (Cleaned.mapped Demo.order_map "state" = None → c_state r = VNull)
    ∧ (Cleaned.mapped Demo.order_map "zip" = None → c_zip r = VNull)
    ∧ c_ts r
      = match Cleaned.date_column Demo.order_map with
        | Some col =>
            Sql.as_timestamp
              (Sql.cell Demo.order_columns
                 [VText "A-3"; VText "tea"; VText "soon"; VText "many"; VNumber 7;
                  VNull] col)
        | None => None
        end
    ∧ (∀ col, Cleaned.mapped Demo.order_map "timestamp" = Some col →
              c_ts r
              = Sql.as_timestamp
                  (Sql.cell Demo.order_columns
                     [VText "A-3"; VText "tea"; VText "soon"; VText "many";
                      VNumber 7; VNull] col))
    ∧ (Demo.order_map !! "timestamp" = None → Demo.order_map !! "date" = None →
       Demo.order_map !! "original_column" = None → c_ts r = None).
Proof.
  apply (cleaned_unmapped_columns (H := Demo.engine) Demo.order_map
           (Demo.fresh Demo.orders)
           {| data := Demo.orders;
              cleaned := Some (Cleaned.select_list Demo.order_map) |} 2);
    reflexivity.
Defined.

(** On the sample table city, state and zip are not mapped and the third
    row holds text where a timestamp and a number are expected. *)
Example orders_unmapped :
  fmap (M := list) (λ r, (c_city r, c_state r, c_zip r, c_ts r, c_quantity r))
    <$> Demo.cleaned_of Demo.orders Demo.order_map
  = Some [(VNull, VNull, VNull, Some (Demo.midnight 2024 2 10), Some 2%R);
          (VNull, VNull, VNull, Some (Demo.midnight 2024 3 10), Some 1%R);
          (VNull, VNull, VNull, None, None)].
Proof. reflexivity. Qed.

(** A mapping that names a column the table does not have is rejected, and
    the connection is left without a view. *)
Example materialize_unknown_column :
  Cleaned.materializeCleanedView (Demo.fresh Demo.orders) {[ "price" := "Cost" ]}
  = None.
Proof. reflexivity. Qed.

(** Replacing the view by itself changes nothing. *)
Lemma materialize_again (c c' : Conn) (mapping : ColumnMap) :
  Cleaned.materializeCleanedView c mapping = Some c' →
  Cleaned.materializeCleanedView c' mapping = Some c'.
Proof.
  intros [Hb ->]%materialize_Some.
  unfold Cleaned.materializeCleanedView, Cleaned.create_or_replace_view; simpl.
  by rewrite Hb.
Qed.

(** C9. For every mapping and unchanged raw table, building the view twice
    with the same mapping and then computing the aggregates (summary, time
    series, products, geo, channels, anomalies) gives the same result as
    building it once: the second call leaves the connection as the first
    one left it, and fails exactly when the first one fails. *)
Theorem materialize_idempotent `{Engine} (today : date) (c : Conn)
    (mapping : ColumnMap) :
  (c1 ← Cleaned.materializeCleanedView c mapping;
   c2 ← Cleaned.materializeCleanedView c1 mapping;
   Dashboard.aggregates today c2)
  = Dashboard.runAggregates today c mapping
  ∧ (c1 ← Cleaned.materializeCleanedView c mapping;
     Cleaned.materializeCleanedView c1 mapping)
    = Cleaned.materializeCleanedView c mapping.
Proof.
  unfold Dashboard.runAggregates.
  destruct (Cleaned.materializeCleanedView c mapping) as [c1|] eqn:E; [|done].
  simpl. by rewrite (materialize_again _ _ _ E).
Qed.

(** ** ORDER BY and GROUP BY *)

Section order_by.
Context {A : Type} (leb : A → A → bool).
Implicit Types (x : A) (l : list A).

Lemma insert_by_perm x l : Sql.insert_by leb x l ≡ₚ x :: l.
Proof.
  induction l as [|y l IH]; simpl; [done|].
  destruct (leb x y); [done|]. by rewrite IH, Permutation_swap.
Qed.

Lemma order_by_perm l : Sql.order_by leb l ≡ₚ l.
Proof.
  induction l as [|x l IH]; simpl; [done|]. by rewrite insert_by_perm, IH.
Qed.

Lemma order_by_elem_of x l : x ∈ Sql.order_by leb l ↔ x ∈ l.
Proof. by rewrite order_by_perm. Qed.

Hypothesis leb_total : ∀ a b, leb a b = true ∨ leb b a = true.
Hypothesis leb_trans : ∀ a b c, leb a b = true → leb b c = true → leb a c = true.

Lemma insert_by_sorted x l :
  StronglySorted (λ a b, leb a b = true) l →
  StronglySorted (λ a b, leb a b = true) (Sql.insert_by leb x l).
Proof.
  induction l as [|y l IH]; simpl; intros Hs.
  - repeat constructor.
  - apply StronglySorted_cons in Hs as [Hy Hs].
    destruct (leb x y) eqn:E.
    + apply StronglySorted_cons. split; [|by apply StronglySorted_cons].
      constructor; [done|]. eapply Forall_impl; [done|]. simpl. eauto.
    + apply StronglySorted_cons. split; [|by apply IH].
      rewrite insert_by_perm. constructor; [|done].
      destruct (leb_total x y); congruence.
Qed.

Lemma order_by_sorted l : StronglySorted (λ a b, leb a b = true) (Sql.order_by leb l).
Proof.
  induction l as [|x l IH]; simpl; [constructor|]. by apply insert_by_sorted.
Qed.

(** What ORDER BY guarantees, by positions. *)
Lemma order_by_lookup l (i j : nat) a b :
  i < j → Sql.order_by leb l !! i = Some a → Sql.order_by leb l !! j = Some b →
  leb a b = true.
Proof.
  generalize (order_by_sorted l). generalize (Sql.order_by leb l). clear l.
  intros l Hs. revert i j. induction Hs as [|x l Hs IH Hx]; intros i j Hij Hi Hj; [done|].
  destruct j as [|j]; [lia|]. simpl in Hj. destruct i as [|i]; simpl in Hi.
  - injection Hi as ->. rewrite Forall_lookup in Hx. by eapply Hx.
  - apply (IH i j); [lia|done..].
Qed.
End order_by.

Lemma asc_leb_total (a b : option R) : Sql.asc_leb a b = true ∨ Sql.asc_leb b a = true.
Proof.
  destruct a as [x|], b as [y|]; simpl; auto.
  rewrite !bool_decide_eq_true. destruct (Rle_dec x y); [auto|right; lra].
Qed.

Lemma asc_leb_trans (a b c : option R) :
  Sql.asc_leb a b = true → Sql.asc_leb b c = true → Sql.asc_leb a c = true.
Proof.
  destruct a as [x|], b as [y|], c as [z|]; simpl; try done.
  rewrite !bool_decide_eq_true. lra.
Qed.

Lemma desc_leb_total (a b : option R) : Sql.desc_leb a b = true ∨ Sql.desc_leb b a = true.
Proof.
  destruct a as [x|], b as [y|]; simpl; auto.
  rewrite !bool_decide_eq_true. destruct (Rle_dec x y); [auto|left; lra].
Qed.

Lemma desc_leb_trans (a b c : option R) :
  Sql.desc_leb a b = true → Sql.desc_leb b c = true → Sql.desc_leb a c = true.
Proof.
  destruct a as [x|], b as [y|], c as [z|]; simpl; try done.
  rewrite !bool_decide_eq_true. lra.
Qed.

Section group_by.
Context {A K : Type} `{EqDecision K} (key : A → K).
Implicit Types (l : list A) (k : K).

Lemma group_by_keys l : fst <$> Sql.group_by key l = remove_dups (key <$> l).
Proof.
  unfold Sql.group_by. rewrite <- list_fmap_compose.
  rewrite <- (list_fmap_id (remove_dups (key <$> l))) at 2.
  by apply list_fmap_ext.
Qed.

Lemma group_by_NoDup l : NoDup (fst <$> Sql.group_by key l).
Proof. rewrite group_by_keys. apply NoDup_remove_dups. Qed.

(** A group is made of all the rows that have its key, and there is one
    group for each key that occurs. *)
Lemma elem_of_group_by l k (g : list A) :
  (k, g) ∈ Sql.group_by key l
  ↔ (∃ r, r ∈ l ∧ key r = k) ∧ g = filter (λ r, key r = k) l.
Proof.
  unfold Sql.group_by. rewrite list_elem_of_fmap. split.
  - intros (k' & [= -> ->] & Hk). rewrite elem_of_remove_dups in Hk.
    apply list_elem_of_fmap in Hk as (r & -> & Hr). eauto.
  - intros [(r & Hr & <-) ->]. exists (key r). split; [done|].
    rewrite elem_of_remove_dups. by apply list_elem_of_fmap_2.
Qed.
End group_by.

(** ** Summary *)

(** C7. On a zero-row cleaned relation [getSummary] does not fail and
    returns totalRevenue (and every other total) undefined, hasDate false
    and both growth percentages null. *)
Theorem getSummary_empty `{Engine} (today : date) (c : Conn) :
  Cleaned.scan c = Some [] →
  Analytics.getSummary today c
  = Some {| totalRevenue := None; totalQuantity := None; minDate := None;
            maxDate := None; momGrowthPct := None; yoyGrowthPct := None;
            hasDate := false |}.
Proof. unfold Analytics.getSummary. by intros ->. Qed.

(** A view built over a table that has no row is a zero-row relation. *)
Lemma scan_no_rows `{Engine} (c c' : Conn) (mapping : ColumnMap) :
  rows (data c) = [] →
  Cleaned.materializeCleanedView c mapping = Some c' →
  Cleaned.scan c' = Some [].
Proof. intros Hr Hm. by rewrite (scan_materialized _ _ _ Hm), Hr. Qed.

Lemma getSummary_empty_witness :
  Analytics.getSummary (H := Demo.engine) {| year := 2024; month := 3; day := 15 |}
    {| data := Demo.no_orders; cleaned := Some (Cleaned.select_list Demo.order_map) |}
  = Some {| totalRevenue := None; totalQuantity := None; minDate := None;
            maxDate := None; momGrowthPct := None; yoyGrowthPct := None;
            hasDate := false |}.
Proof.
  apply (getSummary_empty (H := Demo.engine)).
  apply (scan_no_rows (H := Demo.engine) (Demo.fresh Demo.no_orders) _ Demo.order_map);
    reflexivity.
Defined.

(** ** Top products *)

Lemma revenue_leb_total (order : Order) (a b : option R) :
  Analytics.revenue_leb order a b = true ∨ Analytics.revenue_leb order b a = true.
Proof. destruct order; [apply asc_leb_total|apply desc_leb_total]. Qed.

Lemma revenue_leb_trans (order : Order) (a b c : option R) :
  Analytics.revenue_leb order a b = true → Analytics.revenue_leb order b c = true →
  Analytics.revenue_leb order a c = true.
Proof. destruct order; [apply asc_leb_trans|apply desc_leb_trans]. Qed.

Lemma product_groups_keys (rs : list CleanedRow) :
  p_product <$> Analytics.product_groups rs
  = remove_dups (c_product <$> filter (λ r, c_product r ≠ VNull) rs).
Proof.
  unfold Analytics.product_groups.
  rewrite <- list_fmap_compose, <- group_by_keys. by apply list_fmap_ext.
Qed.

(** The groups of [getProducts]: one per product that is not NULL, with the
    sums of revenue and quantity over the rows of that product. *)
Lemma elem_of_product_groups (rs : list CleanedRow) (g : ProductRow) :
  g ∈ Analytics.product_groups rs
  ↔ p_product g ≠ VNull
    ∧ (∃ r, r ∈ rs ∧ c_product r = p_product g)
    ∧ p_revenue g
      = Sql.sum (c_revenue <$> filter (λ r, c_product r = p_product g) rs)
    ∧ p_quantity g
      = Sql.sum (c_quantity <$> filter (λ r, c_product r = p_product g) rs).
Proof.
  unfold Analytics.product_groups. rewrite list_elem_of_fmap.
  assert (∀ k, k ≠ VNull →
    filter (λ r, c_product r = k) (filter (λ r, c_product r ≠ VNull) rs)
    = filter (λ r, c_product r = k) rs) as Hfilter.
  { intros k Hk. rewrite list_filter_filter. apply list_filter_iff.
    intros r. split; [by intros [? _]|]. intros ->. done. }
  split.
  - intros ([k grp] & -> & Hg). apply elem_of_group_by in Hg as [(r & Hr & Hk) ->].
    apply list_elem_of_filter in Hr as [Hnn Hr]. simpl.
    assert (k ≠ VNull) as Hk' by congruence.
    rewrite (Hfilter k Hk'). eauto 10.
  - intros (Hnn & (r & Hr & Hk) & Hrev & Hqty).
    exists (p_product g, filter (λ r, c_product r = p_product g)
                           (filter (λ r, c_product r ≠ VNull) rs)).
    split.
    + simpl. rewrite (Hfilter _ Hnn), <- Hrev, <- Hqty. by destruct g.
    + apply elem_of_group_by. split; [|done]. exists r. split; [|done].
      apply list_elem_of_filter. split; [congruence|done].
Qed.

(** C8. For every cleaned relation and every limit, offset and direction,
    [getProducts] returns [LIMIT limit OFFSET offset] of the list of groups
    ordered by revenue, where there is one group per product that is not
    NULL, carrying the sums of revenue and of quantity over the rows of that
    product; the order is descending unless the direction is asc (NULL
    revenues come last); an omitted limit is 10, an omitted offset is 0 and
    an omitted direction is desc. *)
Theorem getProducts_spec `{Engine} (c : Conn) (limit offset : option nat)
    (order : option Order) (rs : list CleanedRow) :
  Cleaned.scan c = Some rs →
  ∃ sorted : list ProductRow,
    Analytics.getProducts c limit offset order
    = Some (take (default 10%nat limit) (drop (default 0%nat offset) sorted))
    ∧ sorted ≡ₚ Analytics.product_groups rs
    ∧ NoDup (p_product <$> sorted)
    ∧ (∀ g, g ∈ sorted
            ↔ p_product g ≠ VNull
              ∧ (∃ r, r ∈ rs ∧ c_product r = p_product g)
              ∧ p_revenue g
                = Sql.sum (c_revenue <$> filter (λ r, c_product r = p_product g) rs)
              ∧ p_quantity g
                = Sql.sum (c_quantity <$> filter (λ r, c_product r = p_product g) rs))
    ∧ (∀ (i j : nat) a b, i < j → sorted !! i = Some a → sorted !! j = Some b →
         match p_revenue a, p_revenue b with
         | Some x, Some y =>
             match default desc order with
             | desc => (y <= x)%R
             | asc => (x <= y)%R
             end
         | None, Some _ => False
         | _, None => True
         end)
    ∧ Analytics.getProducts c None None None
      = Analytics.getProducts c (Some 10%nat) (Some 0%nat) (Some desc).
Proof.
  intros Hscan.
  set (leb := λ a b : ProductRow,
         Analytics.revenue_leb (default desc order) (p_revenue a) (p_revenue b)).
  exists (Sql.order_by leb (Analytics.product_groups rs)).
  split; [|split; [|split; [|split; [|split]]]].
  - unfold Analytics.getProducts. by rewrite Hscan.
  - apply order_by_perm.
  - rewrite (order_by_perm leb), product_groups_keys. apply NoDup_remove_dups.
  - intros g. rewrite order_by_elem_of. apply elem_of_product_groups.
  - intros i j a b Hij Hi Hj.
    assert (leb a b = true) as Hab.
    { eapply (order_by_lookup leb); [| |done..].
      - intros x y. apply revenue_leb_total.
      - intros x y z. apply revenue_leb_trans. }
    unfold leb in Hab.
    destruct (p_revenue a) as [x|], (p_revenue b) as [y|], (default desc order);
      simpl in Hab; try done; by apply bool_decide_eq_true in Hab.
  - done.
Qed.


Lemma revenue_rows_cleaned (entries : list (Timestamp * R)) :
  Demo.cleaned_of (Demo.revenue_table entries) Demo.revenue_map
  = Some (Demo.revenue_rows entries).
Proof.
  unfold Demo.cleaned_of. change (Some (Demo.revenue_rows entries))
    with (Some (Demo.revenue_rows entries) ≫= Some).
  unfold Demo.revenue_rows, Demo.revenue_table.
  induction entries as [|e entries IH]; [reflexivity|].
  cbv [Demo.cleaned_of] in *. revert IH.
  unfold Cleaned.materializeCleanedView, Cleaned.create_or_replace_view.
  change (Cleaned.view_binds _ _) with true. cbv beta iota.
  unfold Demo.fresh; cbn [data mbind option_bind].
  unfold Cleaned.scan; cbn [cleaned mbind option_bind data columns rows].
  change (Cleaned.view_binds _ _) with true. cbv beta iota.
  intros [= IH]. rewrite !fmap_cons. by rewrite IH.
Qed.

Lemma order_rows_scan :
  Cleaned.scan (H := Demo.engine)
    {| data := Demo.orders; cleaned := Some (Cleaned.select_list Demo.order_map) |}
  = Some Demo.order_rows.
Proof. reflexivity. Qed.

Lemma getProducts_spec_witness :
  ∃ sorted : list ProductRow,
    Analytics.getProducts (H := Demo.engine)
      {| data := Demo.orders; cleaned := Some (Cleaned.select_list Demo.order_map) |}
      (Some 1%nat) None (Some asc)
    = Some (take 1 (drop 0 sorted))
    ∧ sorted ≡ₚ Analytics.product_groups Demo.order_rows.
Proof.
  destruct (getProducts_spec (H := Demo.engine) _ (Some 1%nat) None (Some asc) _
              order_rows_scan)
    as (sorted & Hget & Hperm & _).
  exists sorted. split; [exact Hget|exact Hperm].
Defined.

(** On the sample orders: tea sold for 100, mug for 50. *)
Example order_products :
  Analytics.products_of 10 0 desc Demo.order_rows
  = [{| p_product := VText "tea"; p_revenue := Some (50 * 2 + 0)%R;
        p_quantity := Some (2 + 0)%R |};
     {| p_product := VText "mug"; p_revenue := Some (50 * 1 + 0)%R;
        p_quantity := Some (1 + 0)%R |}]
  ∧ Analytics.products_of 1 1 desc Demo.order_rows
    = [{| p_product := VText "mug"; p_revenue := Some (50 * 1 + 0)%R;
          p_quantity := Some (1 + 0)%R |}]
  ∧ Analytics.products_of 1 0 asc Demo.order_rows
    = [{| p_product := VText "mug"; p_revenue := Some (50 * 1 + 0)%R;
          p_quantity := Some (1 + 0)%R |}].
Proof.
  assert (Analytics.product_groups Demo.order_rows
          = [{| p_product := VText "mug"; p_revenue := Some (50 * 1 + 0)%R;
                p_quantity := Some (1 + 0)%R |};
             {| p_product := VText "tea"; p_revenue := Some (50 * 2 + 0)%R;
                p_quantity := Some (2 + 0)%R |}]) as Hg by reflexivity.
  unfold Analytics.products_of. rewrite Hg.
  cbn [Sql.order_by foldr Sql.insert_by Analytics.revenue_leb Sql.desc_leb
       Sql.asc_leb p_revenue].
  rewrite (bool_decide_eq_false_2 (50 * 2 + 0 <= 50 * 1 + 0)%R) by lra.
  rewrite (bool_decide_eq_true_2 (50 * 1 + 0 <= 50 * 2 + 0)%R) by lra.
  done.
Qed.

(** ** Daily buckets *)

Section buckets.
Import Sql Calendar.
Implicit Types (rs : list CleanedRow) (d : date).

Lemma dated_cons (r : CleanedRow) rs :
  Analytics.dated (r :: rs)
  = match c_ts r with
    | Some t => (t, r) :: Analytics.dated rs
    | None => Analytics.dated rs
    end.
Proof. unfold Analytics.dated; simpl. by destruct (c_ts r). Qed.

Lemma elem_of_dated (p : Timestamp * CleanedRow) rs :
  p ∈ Analytics.dated rs ↔ p.2 ∈ rs ∧ c_ts p.2 = Some p.1.
Proof.
  unfold Analytics.dated. rewrite list_elem_of_omap. split.
  - intros (r & Hr & Hp). destruct (c_ts r) as [t|] eqn:E; [|done].
    injection Hp as <-. done.
  - intros [Hr Ht]. exists p.2. split; [done|]. rewrite Ht. by destruct p.
Qed.

(** The rows of a bucket are the rows whose timestamp truncates to it. *)
Lemma dated_filter (trunc : Timestamp → date) rs d :
  snd <$> filter (λ p : Timestamp * CleanedRow, trunc p.1 = d) (Analytics.dated rs)
  = filter (λ r, trunc <$> c_ts r = Some d) rs.
Proof.
  induction rs as [|r rs IH]; [done|].
  rewrite dated_cons. destruct (c_ts r) as [t|] eqn:E.
  - destruct (decide (trunc t = d)) as [Heq|Hne].
    + rewrite filter_cons_True by done.
      rewrite (filter_cons_True (λ r, trunc <$> c_ts r = Some d))
        by (rewrite E; simpl; by rewrite Heq).
      rewrite fmap_cons. simpl. by rewrite IH.
    + rewrite filter_cons_False by done.
      rewrite (filter_cons_False (λ r, trunc <$> c_ts r = Some d)); [done|].
      rewrite E. simpl. congruence.
  - rewrite (filter_cons_False (λ r, trunc <$> c_ts r = Some d)); [done|].
    by rewrite E.
Qed.

Lemma elem_of_buckets (trunc : Timestamp → date) rs d (g : list CleanedRow) :
  (d, g) ∈ Analytics.buckets trunc rs
  ↔ (∃ r, r ∈ rs ∧ trunc <$> c_ts r = Some d)
    ∧ g = filter (λ r, trunc <$> c_ts r = Some d) rs.
Proof.
  unfold Analytics.buckets. rewrite list_elem_of_fmap. split.
  - intros ([k grp] & [= -> ->] & Hg). simpl.
    apply elem_of_group_by in Hg as [(p & Hp & Hk) ->].
    apply elem_of_dated in Hp as [Hr Ht]. split.
    + exists p.2. split; [done|]. rewrite Ht. simpl. by rewrite Hk.
    + apply dated_filter.
  - intros [(r & Hr & Ht) ->].
    exists (d, filter (λ p : Timestamp * CleanedRow, trunc p.1 = d) (Analytics.dated rs)).
    split; [simpl; by rewrite dated_filter|].
    apply elem_of_group_by. split; [|done].
    destruct (c_ts r) as [t|] eqn:E; [|done]. injection Ht as Ht.
    exists (t, r). split; [|done]. by apply elem_of_dated.
Qed.

Lemma buckets_NoDup (trunc : Timestamp → date) rs :
  NoDup (fst <$> Analytics.buckets trunc rs).
Proof.
  unfold Analytics.buckets. rewrite <- list_fmap_compose.
  replace (_ <$> _) with
    (fst <$> group_by (λ p : Timestamp * CleanedRow, trunc p.1) (Analytics.dated rs))
    by by apply list_fmap_ext.
  apply group_by_NoDup.
Qed.

(** [daily]: one entry per day on which some row is dated, holding the sum
    of the revenue of the rows of that day. *)
Lemma elem_of_daily_revenue rs d (rev : option R) :
  (d, rev) ∈ Analytics.daily_revenue rs
  ↔ (∃ r, r ∈ rs ∧ trunc_day <$> c_ts r = Some d)
    ∧ rev = sum (c_revenue <$> filter (λ r, trunc_day <$> c_ts r = Some d) rs).
Proof.
  unfold Analytics.daily_revenue. rewrite list_elem_of_fmap. split.
  - intros ([k g] & [= -> ->] & Hg). apply elem_of_buckets in Hg as [Hr ->]. done.
  - intros [Hr ->]. eexists (d, _). split; [done|]. by apply elem_of_buckets.
Qed.

Lemma daily_revenue_NoDup rs : NoDup (fst <$> Analytics.daily_revenue rs).
Proof.
  unfold Analytics.daily_revenue. rewrite <- list_fmap_compose.
  replace (_ <$> _) with (fst <$> Analytics.buckets trunc_day rs)
    by by apply list_fmap_ext.
  apply buckets_NoDup.
Qed.

End buckets.

(** ** Mean, standard deviation and z-scores *)

Section stats.
Import Sql.
Implicit Types (l : list (option R)) (xs : list R).

Lemma non_null_length l : (length (non_null l) ≤ length l)%nat.
Proof.
  unfold non_null. induction l as [|[x|] l IH]; cbn in *; lia.
Qed.

Lemma Rsum_cons (x : R) xs : Rsum (x :: xs) = (x + Rsum xs)%R.
Proof. reflexivity. Qed.

Lemma Rsum_squares_nonneg (m : R) xs :
  (0 <= Rsum ((λ x, (x - m) * (x - m))%R <$> xs))%R.
Proof.
  induction xs as [|x xs IH]; [cbn; lra|].
  rewrite fmap_cons, Rsum_cons.
  pose proof (Rle_0_sqr (x - m)) as Hsq. unfold Rsqr in Hsq. lra.
Qed.

(** [AVG] is the sum of the values over their number. *)
Lemma avg_Some l (m : R) :
  avg l = Some m →
  non_null l ≠ [] ∧ (m * INR (length (non_null l)) = Rsum (non_null l))%R.
Proof.
  unfold avg. destruct (non_null l) as [|x xs] eqn:E; [done|].
  assert (INR (length (x :: xs)) ≠ 0%R) as Hn by (apply not_0_INR; simpl; lia).
  revert Hn. generalize (INR (length (x :: xs))) (Rsum (x :: xs)). intros n S Hn Hm.
  split; [done|]. injection Hm as <-. by field.
Qed.

(** [STDDEV_SAMP] is defined for two values or more. *)
Lemma stddev_samp_None l : stddev_samp l = None ↔ (length (non_null l) < 2)%nat.
Proof.
  unfold stddev_samp. destruct (Nat.ltb_spec (length (non_null l)) 2); split;
    (done || lia).
Qed.

(** [STDDEV_SAMP] is the sample standard deviation: it is not negative and
    its square times [n - 1] is the sum of the squared deviations from the
    mean. *)
Lemma stddev_samp_Some l (s : R) :
  stddev_samp l = Some s →
  (2 ≤ length (non_null l))%nat
  ∧ avg l = Some (Rsum (non_null l) / INR (length (non_null l)))%R
  ∧ (0 <= s)%R
  ∧ (s * s * (INR (length (non_null l)) - 1)
     = Rsum ((λ x, (x - Rsum (non_null l) / INR (length (non_null l)))
                   * (x - Rsum (non_null l) / INR (length (non_null l))))%R
             <$> non_null l))%R.
Proof.
  unfold stddev_samp, avg.
  destruct (Nat.ltb_spec (length (non_null l)) 2) as [|Hn]; [done|].
  intros [= <-]. split; [done|]. split.
  { destruct (non_null l); [simpl in Hn; lia|done]. }
  set (n := length (non_null l)) in *.
  set (m := (Rsum (non_null l) / INR n)%R).
  assert (1 < INR n)%R as Hn1.
  { change 1%R with (INR 1). apply lt_INR. lia. }
  pose proof (Rsum_squares_nonneg m (non_null l)) as Hsq.
  split; [apply sqrt_pos|].
  rewrite sqrt_sqrt.
  - field. lra.
  - apply Rmult_le_pos; [done|]. left. apply Rinv_0_lt_compat. lra.
Qed.

(** The z-score is defined when the revenue of the day and the mean are
    not NULL and the standard deviation is neither NULL nor zero. *)
Lemma zscore_Some (rev avg_rev sd_rev : option R) (z : R) :
  Analytics.zscore rev avg_rev sd_rev = Some z
  ↔ ∃ x m s, rev = Some x ∧ avg_rev = Some m ∧ sd_rev = Some s ∧ s ≠ 0%R
             ∧ z = ((x - m) / s)%R.
Proof.
  unfold Analytics.zscore, div, sub, nullif0. split.
  - destruct rev as [x|], avg_rev as [m|], sd_rev as [s|]; try done.
    destruct (decide (s = 0%R)); [done|]. intros [= <-]. by exists x, m, s.
  - intros (x & m & s & -> & -> & -> & Hs & ->). by rewrite decide_False.
Qed.

End stats.
(** ** Anomalies *)

Section anomalies.
Import Sql.

(** The rows [getAnomalies] returns. *)
Lemma elem_of_anomalies (rs : list CleanedRow) (a : AnomalyRow) :
  a ∈ Analytics.anomalies_of rs
  ↔ ∃ d x m s,
      (d, Some x) ∈ Analytics.daily_revenue rs
      ∧ avg (snd <$> Analytics.daily_revenue rs) = Some m
      ∧ stddev_samp (snd <$> Analytics.daily_revenue rs) = Some s
      ∧ s ≠ 0%R
      ∧ (2 < Rabs ((x - m) / s))%R
      ∧ a = {| a_date := d; a_revenue := Some x;
               a_zscore := Some ((x - m) / s)%R |}.
Proof.
  unfold Analytics.anomalies_of.
  rewrite order_by_elem_of, list_elem_of_filter, list_elem_of_fmap.
  generalize (avg (snd <$> Analytics.daily_revenue rs))
             (stddev_samp (snd <$> Analytics.daily_revenue rs)).
  intros avg_rev sd_rev. split.
  - intros [Hkeep ([d rev] & -> & Hd)]. cbn [a_zscore fst snd] in *.
    apply andb_prop_elim in Hkeep as [Hsd Hgt].
    unfold Analytics.abs_gt_2 in Hgt.
    destruct (Analytics.zscore rev avg_rev sd_rev) as [z|] eqn:Hz; [|done].
    apply bool_decide_unpack in Hgt.
    apply zscore_Some in Hz as (x & m & s & -> & -> & -> & Hs0 & ->).
    by exists d, x, m, s.
  - intros (d & x & m & s & Hd & -> & -> & Hs0 & Hgt & ->).
    assert (Analytics.zscore (Some x) (Some m) (Some s) = Some ((x - m) / s)%R)
      as Hz by (apply zscore_Some; by exists x, m, s).
    split.
    + cbn [a_zscore]. apply andb_prop_intro. split.
      * apply bool_decide_pack. by eexists.
      * unfold Analytics.abs_gt_2. by apply bool_decide_pack.
    + exists (d, Some x). split; [|done]. cbn [fst snd]. by rewrite Hz.
Qed.

(** [getAnomalies] orders its rows by decreasing absolute z-score. *)
Lemma anomalies_sorted (rs : list CleanedRow) (i j : nat) (a b : AnomalyRow) :
  i < j → Analytics.anomalies_of rs !! i = Some a →
  Analytics.anomalies_of rs !! j = Some b →
  ∃ za zb, a_zscore a = Some za ∧ a_zscore b = Some zb ∧ (Rabs zb <= Rabs za)%R.
Proof.
  intros Hij Hi Hj.
  pose proof (list_elem_of_lookup_2 _ _ _ Hi) as Ha.
  pose proof (list_elem_of_lookup_2 _ _ _ Hj) as Hb.
  apply elem_of_anomalies in Ha as (da & xa & ma & sa & _ & _ & _ & _ & _ & Ea).
  apply elem_of_anomalies in Hb as (db & xb & mb & sb & _ & _ & _ & _ & _ & Eb).
  unfold Analytics.anomalies_of in Hi, Hj.
  assert (desc_leb (Rabs <$> a_zscore a) (Rabs <$> a_zscore b) = true) as Hab.
  { eapply (order_by_lookup
              (λ a b, desc_leb (Rabs <$> a_zscore a) (Rabs <$> a_zscore b)));
      [| |exact Hij|exact Hi|exact Hj].
    - intros x y. apply desc_leb_total.
    - intros x y z. apply desc_leb_trans. }
  subst a b. cbn [a_zscore fmap option_fmap option_map desc_leb] in Hab.
  apply bool_decide_eq_true in Hab. eauto.
Qed.

(** Without a usable standard deviation nothing is returned. *)
Lemma anomalies_nil (rs : list CleanedRow) :
  (length (Analytics.daily_revenue rs) < 2)%nat
  ∨ stddev_samp (snd <$> Analytics.daily_revenue rs) = None
  ∨ stddev_samp (snd <$> Analytics.daily_revenue rs) = Some 0%R →
  Analytics.anomalies_of rs = [].
Proof.
  intros Hcase. apply elem_of_nil_inv. intros a Ha.
  apply elem_of_anomalies in Ha as (d & x & m & s & _ & _ & Hs & Hs0 & _).
  destruct Hcase as [Hlen|[Hnone|Hzero]]; [|congruence..].
  assert (stddev_samp (snd <$> Analytics.daily_revenue rs) = None); [|congruence].
  apply stddev_samp_None.
  pose proof (non_null_length (snd <$> Analytics.daily_revenue rs)) as Hle.
  rewrite length_fmap in Hle. lia.
Qed.

(** Each day occurs at most once in the result of [getAnomalies]. *)
Lemma anomalies_NoDup (rs : list CleanedRow) :
  NoDup (a_date <$> Analytics.anomalies_of rs).
Proof.
  assert (∀ d x y, (d, x) ∈ Analytics.daily_revenue rs →
                   (d, y) ∈ Analytics.daily_revenue rs → x = y) as Hfun.
  { intros d x y [_ ->]%elem_of_daily_revenue [_ ->]%elem_of_daily_revenue. done. }
  apply NoDup_fmap_2_strong.
  - intros a b Ha Hb Hab.
    apply elem_of_anomalies in Ha as (d & x & m & s & Hd & Hm & Hs & _ & _ & ->).
    apply elem_of_anomalies in Hb as (d' & x' & m' & s' & Hd' & Hm' & Hs' & _ & _ & ->).
    cbn [a_date] in Hab. subst d'.
    pose proof (Hfun _ _ _ Hd Hd') as [= <-]. congruence.
  - unfold Analytics.anomalies_of.
    rewrite (order_by_perm _ _). apply NoDup_filter.
    apply NoDup_fmap_2_strong.
    + intros [d x] [d' y] Hx Hy [= -> ->]. done.
    + eapply NoDup_fmap_1. apply daily_revenue_NoDup.
Qed.

End anomalies.
(** ** The series 100, 100, 100, 100, 1000 *)

Lemma Rdiv_gt_2 (q s : R) : (0 < s)%R → (2 < q / s)%R → (2 * s < q)%R.
Proof.
  intros Hs Hq. assert (q = q / s * s)%R as Hqs by (field; lra). nra.
Qed.

Lemma spike_daily :
  Analytics.daily_revenue (Demo.revenue_rows Demo.spike)
  = [({| year := 2024; month := 1; day := 1 |}, Some (100 + 0)%R);
     ({| year := 2024; month := 1; day := 2 |}, Some (100 + 0)%R);
     ({| year := 2024; month := 1; day := 3 |}, Some (100 + 0)%R);
     ({| year := 2024; month := 1; day := 4 |}, Some (100 + 0)%R);
     ({| year := 2024; month := 1; day := 5 |}, Some (1000 + 0)%R)].
Proof. reflexivity. Qed.

(** The mean of the series is 280; its sample standard deviation is the
    square root of 162000, which is more than 360. *)
Lemma spike_stats :
  ∃ s : R,
    Sql.avg (snd <$> Analytics.daily_revenue (Demo.revenue_rows Demo.spike))
    = Some 280%R
    ∧ Sql.stddev_samp (snd <$> Analytics.daily_revenue (Demo.revenue_rows Demo.spike))
      = Some s
    ∧ (360 < s)%R ∧ (s * s = 162000)%R.
Proof.
  rewrite spike_daily.
  set (l := snd <$> _).
  destruct (Sql.stddev_samp l) as [s|] eqn:Hs.
  2:{ apply stddev_samp_None in Hs. cbn in Hs. lia. }
  exists s. pose proof (stddev_samp_Some _ _ Hs) as (_ & Havg & Hpos & Hsq).
  rewrite Havg. subst l.
  cbn [fmap list_fmap snd Sql.non_null omap list_omap length Sql.Rsum foldr INR]
    in Hsq |- *.
  assert ((100 + 0 + (100 + 0 + (100 + 0 + (100 + 0 + (1000 + 0 + 0))))) /
          (1 + 1 + 1 + 1 + 1) = 280)%R as Hm by lra.
  rewrite Hm in Hsq |- *.
  assert (s * s = 162000)%R as Hss by lra.
  split; [done|]. split; [done|]. split; [|done].
  destruct (Rlt_le_dec 360 s) as [|Hle]; [done|].
  assert (s * s <= 360 * 360)%R by nra. lra.
Qed.

(** The z-score of the final day is positive but less than 2. *)
Lemma spike_final_zscore :
  ∃ z : R,
    Analytics.zscore (Some 1000%R)
      (Sql.avg (snd <$> Analytics.daily_revenue (Demo.revenue_rows Demo.spike)))
      (Sql.stddev_samp (snd <$> Analytics.daily_revenue (Demo.revenue_rows Demo.spike)))
    = Some z
    ∧ (0 < z < 2)%R.
Proof.
  destruct spike_stats as (s & -> & -> & Hs & Hss).
  exists ((1000 - 280) / s)%R. split.
  - apply zscore_Some. exists 1000%R, 280%R, s. repeat split; lra.
  - split.
    + apply Rdiv_lt_0_compat; lra.
    + apply (Rmult_lt_reg_r s); [lra|].
      replace ((1000 - 280) / s * s)%R with 720%R by (field; lra). lra.
Qed.

(** No day of the series has an absolute z-score above 2. *)
Lemma spike_anomalies : Analytics.anomalies_of (Demo.revenue_rows Demo.spike) = [].
Proof.
  apply elem_of_nil_inv. intros a Ha.
  apply elem_of_anomalies in Ha as (d & x & m & s & Hd & Hm & Hs & _ & Hgt & _).
  destruct spike_stats as (s' & Hm' & Hs' & Hpos & Hss).
  rewrite Hm' in Hm. rewrite Hs' in Hs. injection Hm as <-. injection Hs as <-.
  assert (x = 100 ∨ x = 1000)%R as Hx.
  { rewrite spike_daily in Hd.
    repeat (apply elem_of_cons in Hd as [Hd|Hd]; [injection Hd as _ ->; lra|]).
    by apply elem_of_nil in Hd. }
  unfold Rabs in Hgt. destruct (Rcase_abs _) as [Hneg|Hnonneg].
  - replace (- ((x - 280) / s'))%R with ((280 - x) / s')%R in Hgt by (field; lra).
    apply Rdiv_gt_2 in Hgt; [|lra]. destruct Hx as [-> | ->]; lra.
  - apply Rdiv_gt_2 in Hgt; [|lra]. destruct Hx as [-> | ->]; lra.
Qed.

Lemma spike_rows_scan :
  Cleaned.scan (H := Demo.engine)
    {| data := Demo.revenue_table Demo.spike;
       cleaned := Some (Cleaned.select_list Demo.revenue_map) |}
  = Some (Demo.revenue_rows Demo.spike).
Proof. reflexivity. Qed.

(** For the daily series 100, 100, 100, 100, 1000 the result of
    [getAnomalies] is empty: the final day does not appear in it. *)
Lemma getAnomalies_spike_counterexample :
  Forall2 (λ (p : date * option R) (x : R), p.2 = Some x)
    (Analytics.daily_revenue (Demo.revenue_rows Demo.spike))
    [100; 100; 100; 100; 1000]%R
  ∧ (Cleaned.materializeCleanedView
       (Demo.fresh (Demo.revenue_table Demo.spike)) Demo.revenue_map
       ≫= Analytics.getAnomalies (H := Demo.engine))
    = Some [].
Proof.
  split.
  - rewrite spike_daily. repeat constructor; cbn [snd]; f_equal; lra.
  - change (Cleaned.materializeCleanedView _ _)
      with (Some {| data := Demo.revenue_table Demo.spike;
                    cleaned := Some (Cleaned.select_list Demo.revenue_map) |}).
    cbn [mbind option_bind]. unfold Analytics.getAnomalies.
    rewrite spike_rows_scan. cbn [fmap option_fmap option_map].
    by rewrite spike_anomalies.
Qed.
(** C4 (amended). For every cleaned relation, [getAnomalies] computes the
    revenue total of each day over the rows whose ts is not NULL, the sample
    mean and the sample standard deviation of these totals, and returns
    exactly the days whose z-score (total - mean) / stddev has an absolute
    value above 2, each once, ordered by decreasing absolute z-score; it
    returns the empty list when there are fewer than 2 days or the standard
    deviation is zero or undefined.  For the daily series 100, 100, 100,
    100, 1000 the z-score of the final day is positive but below 2, and the
    result is empty. *)
Theorem getAnomalies_spec `{Engine} (c : Conn) (rs : list CleanedRow) :
  Cleaned.scan c = Some rs →
  let days := Analytics.daily_revenue rs in
  let totals := Sql.non_null (snd <$> days) in
  let avg_rev := Sql.avg (snd <$> days) in
  let sd_rev := Sql.stddev_samp (snd <$> days) in
  ∃ out : list AnomalyRow,
    Analytics.getAnomalies c = Some out
    ∧ NoDup (fst <$> days)
    ∧ (∀ d rev,
         (d, rev) ∈ days
         ↔ (∃ r, r ∈ rs ∧ Calendar.trunc_day <$> c_ts r = Some d)
           ∧ rev = Sql.sum (c_revenue
                     <$> filter (λ r, Calendar.trunc_day <$> c_ts r = Some d) rs))
    ∧ (∀ m, avg_rev = Some m →
            totals ≠ [] ∧ (m * INR (length totals) = Sql.Rsum totals)%R)
    ∧ (sd_rev = None ↔ (length totals < 2)%nat)
    ∧ (∀ s, sd_rev = Some s →
            avg_rev = Some (Sql.Rsum totals / INR (length totals))%R
            ∧ (0 <= s)%R
            ∧ (s * s * (INR (length totals) - 1)
               = Sql.Rsum ((λ x, (x - Sql.Rsum totals / INR (length totals))
                                 * (x - Sql.Rsum totals / INR (length totals)))%R
                           <$> totals))%R)
    ∧ (∀ a, a ∈ out
            ↔ ∃ d x m s,
                (d, Some x) ∈ days ∧ avg_rev = Some m ∧ sd_rev = Some s
                ∧ s ≠ 0%R ∧ (2 < Rabs ((x - m) / s))%R
                ∧ a = {| a_date := d; a_revenue := Some x;
                         a_zscore := Some ((x - m) / s)%R |})
    ∧ NoDup (a_date <$> out)
    ∧ (∀ (i j : nat) a b, i < j → out !! i = Some a → out !! j = Some b →
         ∃ za zb, a_zscore a = Some za ∧ a_zscore b = Some zb
                  ∧ (Rabs zb <= Rabs za)%R)
    ∧ ((length days < 2)%nat ∨ sd_rev = None ∨ sd_rev = Some 0%R → out = [])
    ∧ (∃ z, Analytics.zscore (Some 1000%R)
              (Sql.avg (snd <$> Analytics.daily_revenue (Demo.revenue_rows Demo.spike)))
              (Sql.stddev_samp
                 (snd <$> Analytics.daily_revenue (Demo.revenue_rows Demo.spike)))
            = Some z
            ∧ (0 < z < 2)%R)
    ∧ Analytics.anomalies_of (Demo.revenue_rows Demo.spike) = [].
Proof.
  intros Hscan days totals avg_rev sd_rev.
  exists (Analytics.anomalies_of rs).
  split; [unfold Analytics.getAnomalies; by rewrite Hscan|].
  split; [apply daily_revenue_NoDup|].
  split; [apply elem_of_daily_revenue|].
  split; [apply avg_Some|].
  split; [apply stddev_samp_None|].
  split; [intros s Hs; by apply stddev_samp_Some in Hs as (_ & ? & ? & ?)|].
  split; [apply elem_of_anomalies|].
  split; [apply anomalies_NoDup|].
  split; [apply anomalies_sorted|].
  split; [apply anomalies_nil|].
  split; [apply spike_final_zscore|apply spike_anomalies].
Qed.

Lemma getAnomalies_spec_witness :
  Analytics.getAnomalies (H := Demo.engine)
    {| data := Demo.revenue_table Demo.spike;
       cleaned := Some (Cleaned.select_list Demo.revenue_map) |}
  = Some [].
Proof.
  destruct (getAnomalies_spec (H := Demo.engine) _ _ spike_rows_scan)
    as (out & -> & _ & _ & _ & _ & _ & Hout & _).
  f_equal. apply elem_of_nil_inv. intros a Ha. apply Hout in Ha.
  apply elem_of_anomalies in Ha. rewrite spike_anomalies in Ha.
  by apply elem_of_nil in Ha.
Defined.

(** ** The column map *)

#[global] Instance field_name_inj : Inj (=) (=) field_name.
Proof. intros f g Hfg. destruct f, g; (done || by vm_compute in Hfg). Qed.

Lemma buildColumnMap_snoc (cols : list Mapping) (col : Mapping) :
  buildColumnMap (cols ++ [col])
  = match canonicalName col with
    | Some f => <[field_name f := originalName col]> (buildColumnMap cols)
    | None => buildColumnMap cols
    end.
Proof. unfold buildColumnMap. by rewrite foldl_snoc. Qed.

Lemma buildColumnMap_lookup_field (cols : list Mapping) (f : CanonicalField) :
  buildColumnMap cols !! field_name f
  = originalName <$> last (filter (λ c, canonicalName c = Some f) cols).
Proof.
  induction cols as [|col cols IH] using rev_ind; [done|].
  rewrite buildColumnMap_snoc, filter_app.
  destruct (canonicalName col) as [g|] eqn:Hg.
  - destruct (decide (g = f)) as [->|Hne].
    + rewrite lookup_insert_eq.
      rewrite (filter_cons_True (λ c, canonicalName c = Some f)) by done.
      rewrite filter_nil. by rewrite last_snoc.
    + rewrite lookup_insert_ne by (intros ?%(inj field_name); done).
      rewrite (filter_cons_False (λ c, canonicalName c = Some f)) by congruence.
      rewrite filter_nil, app_nil_r. apply IH.
  - rewrite (filter_cons_False (λ c, canonicalName c = Some f)) by congruence.
    rewrite filter_nil, app_nil_r. apply IH.
Qed.

(** Every entry of the map comes from a column: the key is the name of the
    field inferred for it, the value is its name. *)
Lemma buildColumnMap_lookup_Some (cols : list Mapping) (k v : string) :
  buildColumnMap cols !! k = Some v →
  ∃ col f, col ∈ cols ∧ canonicalName col = Some f ∧ field_name f = k
           ∧ originalName col = v.
Proof.
  induction cols as [|col cols IH] using rev_ind; [done|].
  rewrite buildColumnMap_snoc.
  destruct (canonicalName col) as [g|] eqn:Hg.
  - destruct (decide (field_name g = k)) as [<-|Hne].
    + rewrite lookup_insert_eq. intros [= <-]. exists col, g.
      split; [apply elem_of_app; right; by apply list_elem_of_here|done].
    + rewrite lookup_insert_ne by done. intros (c & f & Hc & ?)%IH.
      exists c, f. split; [apply elem_of_app; by left|done].
  - intros (c & f & Hc & ?)%IH.
    exists c, f. split; [apply elem_of_app; by left|done].
Qed.

(** [buildColumnMap]: under the key of a canonical field the map holds the
    name of the last column inferred as that field (later columns overwrite
    earlier ones); it holds nothing under any other key, and every value is
    the name of a column that was inferred as the field of its key. *)
Theorem buildColumnMap_last_wins (cols : list Mapping) :
  (∀ f : CanonicalField,
     buildColumnMap cols !! field_name f
     = originalName <$> last (filter (λ c, canonicalName c = Some f) cols))
  ∧ (∀ k : string, (∀ f, field_name f ≠ k) → buildColumnMap cols !! k = None)
  ∧ (∀ k v : string,
       buildColumnMap cols !! k = Some v →
       ∃ col f, col ∈ cols ∧ canonicalName col = Some f ∧ field_name f = k
                ∧ originalName col = v).
Proof.
  split; [intros f; apply buildColumnMap_lookup_field|].
  split; [|apply buildColumnMap_lookup_Some].
  intros k Hk. destruct (buildColumnMap cols !! k) as [v|] eqn:E; [|done].
  apply buildColumnMap_lookup_Some in E as (col & f & _ & _ & Hf & _).
  by destruct (Hk f).
Qed.

(** The date range of the schema is read from the first column inferred as
    timestamp, the ts column of the view from the last one: they are the
    same column when at most one column is inferred as timestamp, and may
    differ otherwise. *)
Theorem tsMapping_first_column_map_last (columns : list string) :
  let dated := filter (λ m, canonicalName m = Some timestamp) (Upload.mappings columns) in
  Upload.tsMapping (Upload.mappings columns) = head dated
  ∧ Upload.column_map columns !! "timestamp" = originalName <$> last dated
  ∧ ((length dated ≤ 1)%nat →
     originalName <$> Upload.tsMapping (Upload.mappings columns)
     = Upload.column_map columns !! "timestamp")
  ∧ originalName <$> Upload.tsMapping (Upload.mappings ["Order Date"; "date"; "ship time"])
    = Some "date"
  ∧ Upload.column_map ["Order Date"; "date"; "ship time"] !! "timestamp"
    = Some "ship time".
Proof.
  intros dated.
  assert (Upload.tsMapping (Upload.mappings columns) = head dated) as Hfirst.
  { unfold Upload.tsMapping. subst dated.
    induction (Upload.mappings columns) as [|m ms IH]; [done|]. simpl.
    rewrite (filter_cons (λ m, canonicalName m = Some timestamp)).
    destruct (decide (canonicalName m = Some timestamp)) as [Hm|Hm].
    - by rewrite bool_decide_eq_true_2.
    - by rewrite bool_decide_eq_false_2. }
  assert (Upload.column_map columns !! "timestamp" = originalName <$> last dated)
    as Hlast by apply (buildColumnMap_lookup_field _ timestamp).
  split; [done|]. split; [done|]. split; [|split; by vm_compute].
  intros Hlen. rewrite Hfirst, Hlast.
  destruct dated as [|m [|m' ms]]; [done..|]. simpl in Hlen. lia.
Qed.

(** ** When the view can be created *)

Section binding.
Import Sql Js.
Context (cols : list string).







End binding.








(** ** Quoted identifiers *)

Lemma append_cons (x : ascii) (a b : string) :
  String x a +:+ b = String x (a +:+ b).
Proof. reflexivity. Qed.

Lemma append_nil_l (b : string) : EmptyString +:+ b = b.
Proof. reflexivity. Qed.

Lemma string_app_assoc (a b c : string) : (a +:+ b) +:+ c = a +:+ (b +:+ c).
Proof.
  induction a as [|x a IH]; [by rewrite !append_nil_l|].
  by rewrite !append_cons, IH.
Qed.

Lemma read_body_closing (rest : string) :
  Quote.starts_with_quote rest = false →
  Quote.read_body (String Quote.dq rest) = Some (EmptyString, rest).
Proof.
  intros Hrest. cbn [Quote.read_body]. rewrite Ascii.eqb_refl.
  destruct rest as [|c rest]; [done|]. simpl in Hrest. by rewrite Hrest.
Qed.

(** Reading what [qi] wrote gives the name back. *)
Lemma read_body_doubled (s rest : string) :
  Quote.starts_with_quote rest = false →
  Quote.read_body
    (Quote.replace_quotes (String Quote.dq (String Quote.dq "")) s
     +:+ String Quote.dq rest)
  = Some (s, rest).
Proof.
  intros Hrest. induction s as [|c s IH].
  - cbn [Quote.replace_quotes]. rewrite append_nil_l. by apply read_body_closing.
  - cbn [Quote.replace_quotes]. destruct (Ascii.eqb c Quote.dq) eqn:Hc.
    + apply Ascii.eqb_eq in Hc as ->.
      rewrite string_app_assoc, !append_cons, append_nil_l.
      cbn [Quote.read_body]. rewrite !Ascii.eqb_refl. by rewrite IH.
    + rewrite append_cons. cbn [Quote.read_body]. rewrite Hc. by rewrite IH.
Qed.

Lemma has_quote_cons (c : ascii) (s : string) :
  Quote.has_quote (String c s) = Ascii.eqb c Quote.dq || Quote.has_quote s.
Proof.
  unfold Quote.has_quote. rewrite includes_cons. cbn [String.prefix].
  destruct (Ascii.ascii_dec Quote.dq c) as [<-|Hne].
  - rewrite Ascii.eqb_refl. by destruct s.
  - destruct (Ascii.eqb c Quote.dq) eqn:E; [|done].
    apply Ascii.eqb_eq in E. congruence.
Qed.

Lemma has_quote_deleted (s : string) :
  Quote.has_quote (Quote.replace_quotes "" s) = false.
Proof.
  induction s as [|c s IH]; [done|]. cbn [Quote.replace_quotes].
  destruct (Ascii.eqb c Quote.dq) eqn:E.
  - by rewrite append_nil_l.
  - by rewrite has_quote_cons, E, IH.
Qed.

Lemma replace_quotes_id (by_ s : string) :
  Quote.has_quote s = false → Quote.replace_quotes by_ s = s.
Proof.
  induction s as [|c s IH]; [done|]. rewrite has_quote_cons.
  intros [Hc Hs]%orb_false_elim. cbn [Quote.replace_quotes]. rewrite Hc.
  by rewrite IH.
Qed.

(** A name without double quote is read up to the closing quote. *)
Lemma read_body_plain (s rest : string) :
  Quote.has_quote s = false → Quote.starts_with_quote rest = false →
  Quote.read_body (s +:+ String Quote.dq rest) = Some (s, rest).
Proof.
  intros Hs Hrest. induction s as [|c s IH].
  - rewrite append_nil_l. by apply read_body_closing.
  - rewrite has_quote_cons in Hs. apply orb_false_elim in Hs as [Hc Hs].
    rewrite append_cons. cbn [Quote.read_body]. rewrite Hc. by rewrite IH.
Qed.

(** [qi]: the text put in the statement is read back by SQL as the column
    with exactly the mapped name, whatever characters the name holds; an
    absent or empty name gives the word NULL. *)
Theorem qi_reads_back (v : option string) (rest : string) :
  Quote.starts_with_quote rest = false →
  match Cleaned.qi v with
  | Sql.Col s =>
      v = Some s ∧ s ≠ EmptyString
      ∧ Quote.read_delimited (Quote.qi v +:+ rest) = Some (s, rest)
  | e => e = Sql.Null ∧ Quote.qi v = "NULL"
  end.
Proof.
  intros Hrest. unfold Cleaned.qi, Quote.qi.
  destruct v as [s|]; [|done]. destruct (truthy s) eqn:Hs; [|done].
  split; [done|]. split; [by destruct s|].
  rewrite append_cons, string_app_assoc, append_cons, append_nil_l.
  cbn [Quote.read_delimited]. rewrite Ascii.eqb_refl.
  by apply read_body_doubled.
Qed.

Lemma qi_reads_back_witness :
  Quote.read_delimited
    (Quote.qi (Some (String "6" (String Quote.dq " pack"))) +:+ " AS product")
  = Some (String "6" (String Quote.dq " pack"), " AS product").
Proof.
  apply (qi_reads_back (Some (String "6" (String Quote.dq " pack"))) " AS product").
  reflexivity.
Defined.

(** [quoteIdent]: the text is read back by SQL as the name with its double
    quotes deleted.  For a name without double quote this is the name, and
    the text is the one [qi] writes; a name that holds a double quote is
    read back as a different name. *)
Theorem quoteIdent_reads_back (name rest : string) :
  Quote.starts_with_quote rest = false →
  Quote.read_delimited (Quote.quoteIdent name +:+ rest)
  = Some (Quote.replace_quotes "" name, rest)
  ∧ Quote.has_quote (Quote.replace_quotes "" name) = false
  ∧ (Quote.has_quote name = false →
     Quote.replace_quotes "" name = name
     ∧ (truthy name = true → Quote.quoteIdent name = Quote.qi (Some name)))
  ∧ (Quote.has_quote name = true → Quote.replace_quotes "" name ≠ name).
Proof.
  intros Hrest. split; [|split; [|split]].
  - unfold Quote.quoteIdent.
    rewrite append_cons, string_app_assoc, append_cons, append_nil_l.
    cbn [Quote.read_delimited]. rewrite Ascii.eqb_refl.
    apply read_body_plain; [apply has_quote_deleted|done].
  - apply has_quote_deleted.
  - intros Hq. split; [by apply replace_quotes_id|].
    intros Ht. unfold Quote.quoteIdent, Quote.qi. rewrite Ht.
    by rewrite !replace_quotes_id.
  - intros Hq Heq. pose proof (has_quote_deleted name) as Hd.
    rewrite Heq in Hd. congruence.
Qed.

Lemma quoteIdent_reads_back_witness :
  Quote.read_delimited
    (Quote.quoteIdent (String "6" (String Quote.dq " pack")) +:+ ") as c")
  = Some ("6 pack", ") as c").
Proof.
  apply (quoteIdent_reads_back (String "6" (String Quote.dq " pack")) ") as c").
  reflexivity.
Defined.

(** ** Normalization of names and questions *)

Lemma lower_char_idemp (c : ascii) : lower_char (lower_char c) = lower_char c.
Proof. destruct c as [[] [] [] [] [] [] [] []]; reflexivity. Qed.

Lemma is_space_lower_char (c : ascii) : is_space (lower_char c) = is_space c.
Proof. destruct c as [[] [] [] [] [] [] [] []]; reflexivity. Qed.

Lemma toLowerCase_idemp (s : string) : toLowerCase (toLowerCase s) = toLowerCase s.
Proof.
  induction s as [|c s IH]; [done|]. cbn [toLowerCase].
  by rewrite lower_char_idemp, IH.
Qed.

Lemma toLowerCase_trimStart (s : string) :
  toLowerCase (trimStart s) = trimStart (toLowerCase s).
Proof.
  induction s as [|c s IH]; [done|]. cbn [toLowerCase trimStart].
  rewrite is_space_lower_char. by destruct (is_space c).
Qed.

Lemma trimEnd_cons (c : ascii) (t : string) :
  trimEnd (String c t)
  = match trimEnd t with
    | EmptyString => if is_space c then EmptyString else String c EmptyString
    | String d u => String c (String d u)
    end.
Proof. reflexivity. Qed.

Lemma toLowerCase_trimEnd (s : string) :
  toLowerCase (trimEnd s) = trimEnd (toLowerCase s).
Proof.
  induction s as [|c s IH]; [done|].
  cbn [toLowerCase]. rewrite !trimEnd_cons, <- IH, is_space_lower_char.
  destruct (trimEnd s) as [|d u]; [by destruct (is_space c)|done].
Qed.

Lemma trimStart_idemp (s : string) : trimStart (trimStart s) = trimStart s.
Proof.
  induction s as [|c s IH]; [done|]. cbn [trimStart].
  destruct (is_space c) eqn:E; [done|]. cbn [trimStart]. by rewrite E.
Qed.

Lemma trimEnd_idemp (s : string) : trimEnd (trimEnd s) = trimEnd s.
Proof.
  induction s as [|c s IH]; [done|]. rewrite trimEnd_cons.
  destruct (trimEnd s) as [|d u] eqn:E.
  - destruct (is_space c) eqn:Ec; [done|]. rewrite trimEnd_cons. cbn [trimEnd].
    by rewrite Ec.
  - rewrite trimEnd_cons, IH. done.
Qed.

(** Trimming the end of a string that does not start with white space
    leaves a string that does not start with white space. *)
Lemma trimStart_trimEnd (s : string) :
  trimStart s = s → trimStart (trimEnd s) = trimEnd s.
Proof.
  destruct s as [|c s]; [done|]. cbn [trimStart].
  destruct (is_space c) eqn:Ec.
  - intros Heq. exfalso.
    assert (String.length (trimStart s) ≤ String.length s)%nat as Hlen.
    { clear. induction s as [|d s IH]; [done|]. cbn [trimStart].
      destruct (is_space d); cbn [String.length]; lia. }
    rewrite Heq in Hlen. cbn [String.length] in Hlen. lia.
  - intros _. rewrite trimEnd_cons, Ec.
    destruct (trimEnd s); cbn [trimStart]; by rewrite Ec.
Qed.

Lemma trim_idemp (s : string) : trim (trim s) = trim s.
Proof.
  unfold trim. rewrite (trimStart_trimEnd (trimStart s)) by apply trimStart_idemp.
  apply trimEnd_idemp.
Qed.

Lemma toLowerCase_trim (s : string) : toLowerCase (trim s) = trim (toLowerCase s).
Proof. unfold trim. by rewrite toLowerCase_trimEnd, toLowerCase_trimStart. Qed.

Lemma normalize_idemp (name : string) :
  Infer.normalize (Infer.normalize name) = Infer.normalize name.
Proof.
  unfold Infer.normalize.
  by rewrite toLowerCase_trim, trim_idemp, toLowerCase_idemp.
Qed.

(** [inferCanonical] depends on the name only through its lowercased,
    trimmed form: the field, the confidence and the reason are the same for
    a name, for its lowercased form, for its trimmed form and for its
    normalized form; only [originalName] keeps the name as given. *)
Theorem inferCanonical_normalization (name name' : string) :
  Infer.normalize name' = Infer.normalize name →
  canonicalName (Infer.inferCanonical name') = canonicalName (Infer.inferCanonical name)
  ∧ confidence (Infer.inferCanonical name') = confidence (Infer.inferCanonical name)
  ∧ reason (Infer.inferCanonical name') = reason (Infer.inferCanonical name)
  ∧ originalName (Infer.inferCanonical name') = name'
  ∧ Infer.normalize (toLowerCase name) = Infer.normalize name
  ∧ Infer.normalize (trim name) = Infer.normalize name
  ∧ Infer.normalize (Infer.normalize name) = Infer.normalize name.
Proof.
  intros Hn. unfold Infer.inferCanonical. rewrite Hn.
  cbn [canonicalName confidence reason originalName].
  do 4 (split; [done|]). split; [|split].
  - unfold Infer.normalize. by rewrite toLowerCase_idemp.
  - unfold Infer.normalize. by rewrite toLowerCase_trim, trim_idemp.
  - apply normalize_idemp.
Qed.

Lemma inferCanonical_normalization_witness :
  canonicalName (Infer.inferCanonical "  Unit PRICE ")
  = canonicalName (Infer.inferCanonical "unit price").
Proof.
  apply (inferCanonical_normalization "unit price" "  Unit PRICE "). reflexivity.
Defined.

(** [routeChatQuestion] classifies a question and its lowercased form
    alike. *)
Lemma route_template_lower (q : string) :
  Chat.route_template (toLowerCase q) = Chat.route_template q.
Proof. unfold Chat.route_template. by rewrite toLowerCase_idemp. Qed.

(** ** The shape of an inference result *)

(** [inferCanonical] keeps the name as given; when it assigns a field, this
    is one of the ten fields that have a rule (never source_file nor
    original_column), the confidence is 0.9 and the reason is the single
    message of that rule; when it assigns none, the confidence is 0 and the
    reason is empty.  The confidence is always between 0 and 1. *)
Theorem inferCanonical_result (name : string) :
  originalName (Infer.inferCanonical name) = name
  ∧ (0 <= confidence (Infer.inferCanonical name) <= 1)%R
  ∧ match canonicalName (Infer.inferCanonical name) with
    | Some f =>
        confidence (Infer.inferCanonical name) = 0.9%R
        ∧ reason (Infer.inferCanonical name)
          = match f with
            | order_id => "matches order/id"
            | product => "matches product/item/sku"
            | timestamp => "matches date/time"
            | quantity => "matches quantity"
            | price => "matches price/amount"
            | revenue => "matches revenue/total"
            | channel => "matches channel/market/source"
            | city => "matches city"
            | state => "matches state/province"
            | zip => "matches zip/postal"
            | source_file | original_column => EmptyString
            end
        ∧ f ≠ source_file ∧ f ≠ original_column
    | None =>
        confidence (Infer.inferCanonical name) = 0%R
        ∧ reason (Infer.inferCanonical name) = EmptyString
    end.
Proof.
  assert (Rmin 1 (0.5 + (0 + 0.4)) = 0.9)%R as Hconf.
  { unfold Rmin. destruct (Rle_dec _ _); lra. }
  unfold Infer.inferCanonical, Infer.run.
  generalize (Infer.normalize name). intros lower.
  cbn [originalName canonicalName confidence reason].
  split; [done|].
  repeat (rewrite rule_fresh;
          match goal with
          | |- context [if ?re lower then _ else _] =>
              destruct (re lower);
              [ repeat (erewrite rule_assigned; [|reflexivity]);
                cbn [Infer.canonical Infer.conf Infer.reasons Infer.score app join];
                rewrite Hconf; split; [lra|by repeat split] | ]
          end).
  cbn [Infer.canonical]. split; [lra|done].
Qed.

(** ** Chronological order *)

Section calendar.
Import Calendar.

Lemma date_ltb_spec (a b : date) :
  date_ltb a b = true
  ↔ (year a < year b
     ∨ (year a = year b
        ∧ (month a < month b ∨ (month a = month b ∧ day a < day b))))%Z.
Proof.
  unfold date_ltb.
  rewrite !orb_true_iff, !andb_true_iff, !orb_true_iff, !andb_true_iff.
  rewrite !Z.ltb_lt, !Z.eqb_eq. done.
Qed.

Lemma date_leb_spec (a b : date) :
  date_leb a b = true
  ↔ (year a < year b
     ∨ (year a = year b
        ∧ (month a < month b ∨ (month a = month b ∧ day a ≤ day b))))%Z.
Proof.
  unfold date_leb. rewrite negb_true_iff, <- not_true_iff_false, date_ltb_spec. lia.
Qed.

Lemma date_eq_spec (a b : date) :
  a = b ↔ (year a = year b ∧ month a = month b ∧ day a = day b)%Z.
Proof.
  split; [by intros ->|]. destruct a, b. cbn. intros (-> & -> & ->). done.
Qed.

Lemma date_leb_total (a b : date) : date_leb a b = true ∨ date_leb b a = true.
Proof. rewrite !date_leb_spec. lia. Qed.

Lemma date_leb_trans (a b c : date) :
  date_leb a b = true → date_leb b c = true → date_leb a c = true.
Proof. rewrite !date_leb_spec. lia. Qed.

Lemma date_leb_antisym (a b : date) :
  date_leb a b = true → date_leb b a = true → a = b.
Proof. rewrite !date_leb_spec, date_eq_spec. lia. Qed.


Lemma ts_leb_spec (a b : Timestamp) :
  ts_leb a b = true
  ↔ date_ltb (ts_date a) (ts_date b) = true
    ∨ (ts_date a = ts_date b ∧ (ts_micros a ≤ ts_micros b)%Z).
Proof.
  unfold ts_leb, ts_ltb.
  rewrite negb_true_iff, orb_false_iff, andb_false_iff, bool_decide_eq_false.
  rewrite Z.ltb_ge, <- !not_true_iff_false, !date_ltb_spec, !date_eq_spec. lia.
Qed.

Lemma ts_leb_total (a b : Timestamp) : ts_leb a b = true ∨ ts_leb b a = true.
Proof. rewrite !ts_leb_spec, !date_ltb_spec, !date_eq_spec. lia. Qed.

Lemma ts_leb_trans (a b c : Timestamp) :
  ts_leb a b = true → ts_leb b c = true → ts_leb a c = true.
Proof. rewrite !ts_leb_spec, !date_ltb_spec, !date_eq_spec. lia. Qed.

End calendar.

(** ** Sums over groups *)

Section sums.
Import Sql.

Lemma Rsum_app (xs ys : list R) : Rsum (xs ++ ys) = (Rsum xs + Rsum ys)%R.
Proof.
  induction xs as [|x xs IH]; [change (Rsum ys = 0 + Rsum ys)%R; lra|].
  rewrite <- app_comm_cons, !Rsum_cons, IH. lra.
Qed.


(** The value a cell contributes to a sum: NULL contributes nothing. *)
Lemma non_null_cons {A} (x : option A) (l : list (option A)) :
  non_null (x :: l) = match x with Some a => a :: non_null l | None => non_null l end.
Proof. unfold non_null. cbn. by destruct x. Qed.

Lemma Rsum_non_null_cons (x : option R) (l : list (option R)) :
  Rsum (non_null (x :: l)) = (default 0 x + Rsum (non_null l))%R.
Proof.
  rewrite non_null_cons. destruct x as [a|].
  - rewrite Rsum_cons. change (default 0%R (Some a)) with a. lra.
  - change (default 0%R None) with 0%R. lra.
Qed.

(** [SUM] is NULL when every value is NULL, and the sum of the values that
    are not NULL otherwise. *)
Lemma sum_default (l : list (option R)) : default 0%R (sum l) = Rsum (non_null l).
Proof. unfold sum. by destruct (non_null l). Qed.



Context {A K : Type} `{EqDecision K} (key : A → K) (val : A → option R).




End sums.

(** ** Time series *)

Section timeseries.
Import Sql Calendar.
Implicit Types (rs : list CleanedRow) (trunc : Timestamp → date).







End timeseries.





(** ** Channels and geography *)

Lemma desc_sorted_lookup {A} (key : A → option R) (l : list A) (i j : nat) (a b : A) :
  i < j →
  Sql.order_by (λ a b, Sql.desc_leb (key a) (key b)) l !! i = Some a →
  Sql.order_by (λ a b, Sql.desc_leb (key a) (key b)) l !! j = Some b →
  match key a, key b with
  | Some x, Some y => (y <= x)%R
  | None, Some _ => False
  | _, None => True
  end.
Proof.
  intros Hij Hi Hj.
  assert (Sql.desc_leb (key a) (key b) = true) as Hab.
  { eapply (order_by_lookup (λ a b, Sql.desc_leb (key a) (key b)));
      [| |exact Hij|exact Hi|exact Hj].
    - intros x y. apply desc_leb_total.
    - intros x y z. apply desc_leb_trans. }
  destruct (key a), (key b); cbn [Sql.desc_leb] in Hab; try done.
  by apply bool_decide_eq_true in Hab.
Qed.

(** [getChannels]: one row per channel that is not NULL, with the sums of
    revenue and quantity over the rows of that channel, by decreasing
    revenue (NULL revenues last); every such channel is returned. *)
Theorem getChannels_spec `{Engine} (c : Conn) (rs : list CleanedRow) :
  Cleaned.scan c = Some rs →
  ∃ out : list ChannelRow,
    Analytics.getChannels c = Some out
    ∧ NoDup (ch_channel <$> out)
    ∧ (∀ g, g ∈ out
            ↔ ch_channel g ≠ VNull
              ∧ (∃ r, r ∈ rs ∧ c_channel r = ch_channel g)
              ∧ ch_revenue g
                = Sql.sum (c_revenue <$> filter (λ r, c_channel r = ch_channel g) rs)
              ∧ ch_quantity g
                = Sql.sum (c_quantity <$> filter (λ r, c_channel r = ch_channel g) rs))
    ∧ (∀ (i j : nat) a b, i < j → out !! i = Some a → out !! j = Some b →
         match ch_revenue a, ch_revenue b with
         | Some x, Some y => (y <= x)%R
         | None, Some _ => False
         | _, None => True
         end).
Proof.
  intros Hscan. exists (Analytics.channels_of rs).
  split; [unfold Analytics.getChannels; by rewrite Hscan|].
  unfold Analytics.channels_of.
  set (groups := Sql.group_by c_channel (filter (λ r, c_channel r ≠ VNull) rs)).
  assert (∀ k, k ≠ VNull →
    filter (λ r, c_channel r = k) (filter (λ r, c_channel r ≠ VNull) rs)
    = filter (λ r, c_channel r = k) rs) as Hfilter.
  { intros k Hk. rewrite list_filter_filter. apply list_filter_iff.
    intros r. split; [by intros [? _]|]. by intros ->. }
  split; [|split].
  - rewrite (order_by_perm _ _), <- list_fmap_compose.
    replace (_ <$> groups) with (fst <$> groups) by by apply list_fmap_ext.
    apply group_by_NoDup.
  - intros g. rewrite order_by_elem_of, list_elem_of_fmap. split.
    + intros ([k grp] & -> & Hg).
      apply elem_of_group_by in Hg as [(r & Hr & Hk) ->].
      apply list_elem_of_filter in Hr as [Hnn Hr]. cbn [ch_channel fst snd].
      assert (k ≠ VNull) as Hk' by congruence. rewrite (Hfilter k Hk'). eauto 10.
    + intros (Hnn & (r & Hr & Hk) & Hrev & Hqty).
      exists (ch_channel g, filter (λ r, c_channel r = ch_channel g)
                              (filter (λ r, c_channel r ≠ VNull) rs)).
      split.
      * cbn [fst snd]. rewrite (Hfilter _ Hnn), <- Hrev, <- Hqty. by destruct g.
      * apply elem_of_group_by. split; [|done]. exists r. split; [|done].
        apply list_elem_of_filter. split; [congruence|done].
  - apply desc_sorted_lookup.
Qed.

Lemma getChannels_spec_witness :
  ∃ out : list ChannelRow,
    Analytics.getChannels (H := Demo.engine)
      {| data := Demo.orders; cleaned := Some (Cleaned.select_list Demo.order_map) |}
    = Some out
    ∧ NoDup (ch_channel <$> out).
Proof.
  destruct (getChannels_spec (H := Demo.engine) _ _ order_rows_scan)
    as (out & Hout & Hnd & _).
  exists out. split; [exact Hout|exact Hnd].
Defined.

(** [getGeo]: one row per pair of state and city among the rows in which
    at least one of the two is not NULL, with the sums of revenue and
    quantity over the rows of that pair, by decreasing revenue. *)
Theorem getGeo_spec `{Engine} (c : Conn) (rs : list CleanedRow) :
  Cleaned.scan c = Some rs →
  ∃ out : list GeoRow,
    Analytics.getGeo c = Some out
    ∧ NoDup ((λ g, (g_state g, g_city g)) <$> out)
    ∧ (∀ g, g ∈ out
            ↔ (g_state g ≠ VNull ∨ g_city g ≠ VNull)
              ∧ (∃ r, r ∈ rs ∧ c_state r = g_state g ∧ c_city r = g_city g)
              ∧ g_revenue g
                = Sql.sum (c_revenue
                    <$> filter (λ r, (c_state r, c_city r) = (g_state g, g_city g)) rs)
              ∧ g_quantity g
                = Sql.sum (c_quantity
                    <$> filter (λ r, (c_state r, c_city r) = (g_state g, g_city g)) rs))
    ∧ (∀ (i j : nat) a b, i < j → out !! i = Some a → out !! j = Some b →
         match g_revenue a, g_revenue b with
         | Some x, Some y => (y <= x)%R
         | None, Some _ => False
         | _, None => True
         end).
Proof.
  intros Hscan. exists (Analytics.geo_of rs).
  split; [unfold Analytics.getGeo; by rewrite Hscan|].
  unfold Analytics.geo_of.
  set (located := filter (λ r, c_state r ≠ VNull ∨ c_city r ≠ VNull) rs).
  set (groups := Sql.group_by (λ r, (c_state r, c_city r)) located).
  assert (∀ s ci, s ≠ VNull ∨ ci ≠ VNull →
    filter (λ r, (c_state r, c_city r) = (s, ci)) located
    = filter (λ r, (c_state r, c_city r) = (s, ci)) rs) as Hfilter.
  { intros s ci Hk. unfold located. rewrite list_filter_filter.
    apply list_filter_iff. intros r. split; [by intros [? _]|].
    intros [= -> ->]. done. }
  split; [|split].
  - rewrite (order_by_perm _ _), <- list_fmap_compose.
    replace (_ <$> groups) with (fst <$> groups)
      by (apply list_fmap_ext; by intros i [[] ?] _).
    apply group_by_NoDup.
  - intros g. rewrite order_by_elem_of, list_elem_of_fmap. split.
    + intros ([[s ci] grp] & -> & Hg).
      apply elem_of_group_by in Hg as [(r & Hr & Hk) ->].
      apply list_elem_of_filter in Hr as [Hnn Hr]. cbn [g_state g_city fst snd].
      injection Hk as <- <-. rewrite (Hfilter _ _ Hnn). eauto 10.
    + intros (Hnn & (r & Hr & Hs & Hci) & Hrev & Hqty).
      exists ((g_state g, g_city g),
              filter (λ r, (c_state r, c_city r) = (g_state g, g_city g)) located).
      split.
      * cbn [fst snd]. rewrite (Hfilter _ _ Hnn), <- Hrev, <- Hqty. by destruct g.
      * apply elem_of_group_by. split; [|done]. exists r.
        split; [|by rewrite Hs, Hci].
        apply list_elem_of_filter. split; [by rewrite Hs, Hci|done].
  - apply desc_sorted_lookup.
Qed.

Lemma getGeo_spec_witness :
  ∃ out : list GeoRow,
    Analytics.getGeo (H := Demo.engine)
      {| data := Demo.orders; cleaned := Some (Cleaned.select_list Demo.order_map) |}
    = Some out
    ∧ NoDup ((λ g, (g_state g, g_city g)) <$> out).
Proof.
  destruct (getGeo_spec (H := Demo.engine) _ _ order_rows_scan)
    as (out & Hout & Hnd & _).
  exists out. split; [exact Hout|exact Hnd].
Defined.

(** ** The date range and the totals of the summary *)

Section summary.
Import Sql Calendar.

Lemma ts_leb_refl (t : Timestamp) : ts_leb t t = true.
Proof. by destruct (ts_leb_total t t). Qed.

Lemma foldl_min_spec (ts : list Timestamp) (t : Timestamp) :
  let m := foldl (λ a b, if ts_leb a b then a else b) t ts in
  m ∈ t :: ts ∧ ∀ x, x ∈ t :: ts → ts_leb m x = true.
Proof.
  revert t. induction ts as [|b ts IH]; intros t; cbn [foldl].
  - split; [apply list_elem_of_here|].
    intros x [->|[]%elem_of_nil]%elem_of_cons. apply ts_leb_refl.
  - destruct (IH (if ts_leb t b then t else b)) as [Hin Hle]. split.
    + apply elem_of_cons in Hin as [->|Hin].
      * destruct (ts_leb t b); [apply list_elem_of_here|].
        apply list_elem_of_further, list_elem_of_here.
      * by do 2 apply list_elem_of_further.
    + intros x Hx.
      pose proof (Hle _ (list_elem_of_here _ _)) as Hm.
      apply elem_of_cons in Hx as [->|[->|Hx]%elem_of_cons].
      * destruct (ts_leb t b) eqn:E; [done|].
        eapply ts_leb_trans; [exact Hm|].
        by destruct (ts_leb_total t b) as [?|?]; [congruence|].
      * destruct (ts_leb t b) eqn:E; [|done]. by eapply ts_leb_trans.
      * apply Hle. by apply list_elem_of_further.
Qed.

Lemma foldl_max_spec (ts : list Timestamp) (t : Timestamp) :
  let m := foldl (λ a b, if ts_leb a b then b else a) t ts in
  m ∈ t :: ts ∧ ∀ x, x ∈ t :: ts → ts_leb x m = true.
Proof.
  revert t. induction ts as [|b ts IH]; intros t; cbn [foldl].
  - split; [apply list_elem_of_here|].
    intros x [->|[]%elem_of_nil]%elem_of_cons. apply ts_leb_refl.
  - destruct (IH (if ts_leb t b then b else t)) as [Hin Hle]. split.
    + apply elem_of_cons in Hin as [->|Hin].
      * destruct (ts_leb t b); [|apply list_elem_of_here].
        apply list_elem_of_further, list_elem_of_here.
      * by do 2 apply list_elem_of_further.
    + intros x Hx.
      pose proof (Hle _ (list_elem_of_here _ _)) as Hm.
      apply elem_of_cons in Hx as [->|[->|Hx]%elem_of_cons].
      * destruct (ts_leb t b) eqn:E; [|done]. by eapply ts_leb_trans.
      * destruct (ts_leb t b) eqn:E; [done|].
        eapply ts_leb_trans; [|exact Hm].
        by destruct (ts_leb_total t b) as [?|?]; [congruence|].
      * apply Hle. by apply list_elem_of_further.
Qed.

Lemma elem_of_non_null {A} (l : list (option A)) (x : A) :
  x ∈ non_null l ↔ Some x ∈ l.
Proof.
  unfold non_null. rewrite list_elem_of_omap. split.
  - by intros (y & Hy & ->).
  - intros Hx. by exists (Some x).
Qed.

(** [MIN(ts)] and [MAX(ts)]: NULL when no timestamp is present; otherwise
    timestamps that are present and bound all the others. *)
Lemma min_max_ts_spec (l : list (option Timestamp)) :
  match min_ts l, max_ts l with
  | Some lo, Some hi =>
      Some lo ∈ l ∧ Some hi ∈ l
      ∧ ∀ t, Some t ∈ l → ts_leb lo t = true ∧ ts_leb t hi = true
  | None, None => ∀ x, x ∈ l → x = None
  | _, _ => False
  end.
Proof.
  unfold min_ts, max_ts. destruct (non_null l) as [|t ts] eqn:E.
  - intros [x|] Hx; [|done]. apply elem_of_non_null in Hx.
    rewrite E in Hx. by apply elem_of_nil in Hx.
  - destruct (foldl_min_spec ts t) as [Hmin Hle].
    destruct (foldl_max_spec ts t) as [Hmax Hge].
    rewrite <- E in Hmin, Hmax, Hle, Hge.
    split; [by apply elem_of_non_null|]. split; [by apply elem_of_non_null|].
    intros x Hx%elem_of_non_null. split; [by apply Hle|by apply Hge].
Qed.

End summary.



(** ** Upload history *)

Section history.
Import History.
Implicit Types (entries : list HistoryEntry) (entry : HistoryEntry).

Lemma upsert_hashes entries entry :
  hash <$> upsertHistoryEntry entries entry
  = if decide (hash entry ∈ hash <$> entries) then hash <$> entries
    else ((hash <$> entries) ++ [hash entry])%list.
Proof.
  unfold upsertHistoryEntry.
  destruct (list_find _ entries) as [[idx old]|] eqn:E.
  - apply list_find_Some in E as (Hidx & Hold & _).
    rewrite decide_True.
    + rewrite list_fmap_insert. cbn [hash spread].
      apply list_insert_id. by rewrite list_lookup_fmap, Hidx, <- Hold.
    + apply list_elem_of_fmap. exists old. split; [done|].
      by eapply list_elem_of_lookup_2.
  - apply list_find_None in E. rewrite decide_False.
    + by rewrite fmap_app.
    + intros (e & He & Hin)%list_elem_of_fmap.
      rewrite Forall_forall in E. by apply (E e).
Qed.

Lemma upsert_lookup_other entries entry (i : nat) (e : HistoryEntry) :
  entries !! i = Some e → hash e ≠ hash entry →
  upsertHistoryEntry entries entry !! i = Some e.
Proof.
  intros Hi Hne. unfold upsertHistoryEntry.
  destruct (list_find _ entries) as [[idx old]|] eqn:E.
  - apply list_find_Some in E as (Hidx & Hold & _).
    rewrite list_lookup_insert_ne; [done|]. intros ->. congruence.
  - by apply lookup_app_l_Some.
Qed.

End history.

Section history_theorems.
Import History.
Implicit Types (entries : list HistoryEntry) (entry : HistoryEntry).

Lemma spread_idemp (old entry : HistoryEntry) :
  spread (spread old entry) entry = spread old entry.
Proof. unfold spread. cbn. by destruct (lastRefreshed entry). Qed.

Lemma spread_self entry : spread entry entry = entry.
Proof. destruct entry as [h t n [v|]]; reflexivity. Qed.

Lemma upsert_idemp entries entry :
  upsertHistoryEntry (upsertHistoryEntry entries entry) entry
  = upsertHistoryEntry entries entry.
Proof.
  unfold upsertHistoryEntry at 2 3.
  destruct (list_find _ entries) as [[idx old]|] eqn:E.
  - pose proof E as (Hidx & Hold & Hleast)%list_find_Some.
    unfold upsertHistoryEntry.
    assert (list_find (λ e, hash e = hash entry) (<[idx := spread old entry]> entries)
            = Some (idx, spread old entry)) as ->.
    { apply list_find_insert_Some. right; left.
      split; [done|]. split; [done|].
      split; [by eapply lookup_lt_Some|]. split; [done|]. eauto. }
    by rewrite list_insert_insert_eq, spread_idemp.
  - unfold upsertHistoryEntry.
    assert (list_find (λ e, hash e = hash entry) (entries ++ [entry])
            = Some (length entries, entry)) as ->.
    { apply list_find_app_Some. right. split; [done|]. split; [done|].
      by rewrite Nat.sub_diag; cbn; rewrite decide_True. }
    rewrite <- (Nat.add_0_r (length entries)), insert_app_r. cbn.
    by rewrite spread_self.
Qed.

Lemma upsert_find entries entry :
  ∃ i : nat,
    list_find (λ e, hash e = hash entry) (upsertHistoryEntry entries entry)
    = Some (i, match list_find (λ e, hash e = hash entry) entries with
               | Some (_, old) => spread old entry
               | None => entry
               end).
Proof.
  unfold upsertHistoryEntry.
  destruct (list_find _ entries) as [[idx old]|] eqn:E.
  - pose proof E as (Hidx & Hold & Hleast)%list_find_Some.
    exists idx. apply list_find_insert_Some. right; left.
    split; [done|]. split; [done|].
    split; [by eapply lookup_lt_Some|]. split; [done|]. eauto.
  - exists (length entries).
    apply list_find_app_Some. right. split; [done|]. split; [done|].
    by rewrite Nat.sub_diag; cbn; rewrite decide_True.
Qed.

Lemma upsert_NoDup entries entry :
  NoDup (hash <$> entries) → NoDup (hash <$> upsertHistoryEntry entries entry).
Proof.
  intros Hnd. rewrite upsert_hashes. case_decide; [done|].
  apply NoDup_app. split; [done|]. split; [|apply NoDup_singleton].
  by intros h Hh ->%list_elem_of_singleton.
Qed.

(** [upsertHistoryEntry] keeps the hashes in their order and adds the hash
    of the entry at the end when it is new: so a history without duplicate
    hashes stays without duplicates and grows by at most one.  The entries
    of the other hashes are left as they are, the entry of this hash takes
    the title and the row count given (and the refresh time, when given),
    and upserting the same entry twice is the same as once. *)
Theorem upsertHistoryEntry_spec entries entry :
  hash <$> upsertHistoryEntry entries entry
  = (if decide (hash entry ∈ hash <$> entries) then hash <$> entries
     else ((hash <$> entries) ++ [hash entry])%list)
  ∧ (NoDup (hash <$> entries) → NoDup (hash <$> upsertHistoryEntry entries entry))
  ∧ length (upsertHistoryEntry entries entry)
    = (if decide (hash entry ∈ hash <$> entries) then length entries
       else S (length entries))
  ∧ (∀ (i : nat) e, entries !! i = Some e → hash e ≠ hash entry →
                    upsertHistoryEntry entries entry !! i = Some e)
  ∧ (∃ (i : nat) e,
       list_find (λ e, hash e = hash entry) (upsertHistoryEntry entries entry)
       = Some (i, e)
       ∧ title e = title entry ∧ rowCount e = rowCount entry
       ∧ ∀ v, lastRefreshed entry = Some v → lastRefreshed e = Some v)
  ∧ upsertHistoryEntry (upsertHistoryEntry entries entry) entry
    = upsertHistoryEntry entries entry.
Proof.
  split; [apply upsert_hashes|]. split; [|split; [|split; [|split]]].
  - apply upsert_NoDup.
  - rewrite <- (length_fmap hash), upsert_hashes.
    case_decide; rewrite ?length_app, length_fmap; cbn; lia.
  - apply upsert_lookup_other.
  - destruct (upsert_find entries entry) as [i Hi]. eexists i, _.
    split; [exact Hi|].
    destruct (list_find _ entries) as [[idx old]|]; cbn; [|done].
    repeat split. by intros v ->.
  - apply upsert_idemp.
Qed.

(** Deleting a hash removes every entry of that hash and no other; after
    the upsert of an entry whose hash was new, deleting this hash gives the
    previous history back. *)
Theorem deleteHistoryEntry_spec entries entry (h : string) :
  (h ∉ hash <$> deleteHistoryEntry h entries)
  ∧ (∀ e, e ∈ deleteHistoryEntry h entries ↔ e ∈ entries ∧ hash e ≠ h)
  ∧ (deleteHistoryEntry h entries `sublist_of` entries)
  ∧ (h ∉ hash <$> entries → deleteHistoryEntry h entries = entries)
  ∧ (hash entry ∉ hash <$> entries →
     deleteHistoryEntry (hash entry) (upsertHistoryEntry entries entry) = entries).
Proof.
  assert (∀ l, h ∉ hash <$> l → deleteHistoryEntry h l = l) as Hid.
  { intros l Hl. unfold deleteHistoryEntry. induction l as [|e l IH]; [done|].
    rewrite fmap_cons in Hl. apply not_elem_of_cons in Hl as [Hne Hl].
    rewrite filter_cons_True by done. by rewrite IH. }
  split; [|split; [|split; [|split]]].
  - intros (e & -> & [Hne _]%list_elem_of_filter)%list_elem_of_fmap. done.
  - intros e. unfold deleteHistoryEntry. rewrite list_elem_of_filter. tauto.
  - apply sublist_filter.
  - apply Hid.
  - intros Hnew. unfold upsertHistoryEntry.
    destruct (list_find _ entries) as [[idx old]|] eqn:E.
    + apply list_find_Some in E as (Hidx & Hold & _). exfalso. apply Hnew.
      apply list_elem_of_fmap. exists old. split; [done|].
      by eapply list_elem_of_lookup_2.
    + unfold deleteHistoryEntry. rewrite filter_app.
      rewrite (filter_cons_False (λ e, hash e ≠ hash entry)) by (intros ?; done).
      rewrite filter_nil, app_nil_r.
      clear E. induction entries as [|e l IH]; [done|].
      rewrite fmap_cons in Hnew. apply not_elem_of_cons in Hnew as [Hne Hl].
      rewrite filter_cons_True by done. by rewrite IH.
Qed.

(** [updateHistoryEntry]: afterwards the history has an entry for the hash,
    with the title, row count and refresh time of the overrides where they
    are given and those of the previous entry otherwise (the title of a new
    entry defaults to the hash, its row count to 0); the refresh time is
    never left absent.  The other entries are untouched and no duplicate
    hash is created. *)
Theorem updateHistoryEntry_spec (current : list HistoryEntry) (h : string)
    (overrides : Overrides) :
  let next := updateHistoryEntry current h overrides in
  let existing := snd <$> list_find (λ e, hash e = h) current in
  h ∈ hash <$> next
  ∧ (NoDup (hash <$> current) → NoDup (hash <$> next))
  ∧ (∀ (i : nat) e, current !! i = Some e → hash e ≠ h → next !! i = Some e)
  ∧ ∃ (i : nat) e,
      list_find (λ e, hash e = h) next = Some (i, e)
      ∧ title e
        = match o_title overrides, existing with
          | Some t, _ => t
          | None, Some old => title old
          | None, None => h
          end
      ∧ rowCount e
        = match o_rowCount overrides, existing with
          | Some n, _ => n
          | None, Some old => rowCount old
          | None, None => 0%R
          end
      ∧ lastRefreshed e
        = Some match o_lastRefreshed overrides, existing ≫= lastRefreshed with
               | Some (Some s), _ => Some s
               | _, Some (Some s) => Some s
               | _, _ => None
               end.
Proof.
  intros next existing. subst next. unfold updateHistoryEntry. fold existing.
  set (entry := {| hash := h |}).
  split; [|split; [apply upsert_NoDup|split; [apply (upsert_lookup_other _ entry)|]]].
  - rewrite upsert_hashes. case_decide; [done|].
    apply elem_of_app. right. apply list_elem_of_here.
  - destruct (upsert_find current entry) as [i Hi]. eexists i, _.
    split; [exact Hi|]. subst existing.
    change (hash entry) with h.
    destruct (list_find (λ e, hash e = h) current) as [[idx old]|];
      cbn; destruct overrides as [[t|] [n|] [[s|]|]]; cbn;
      repeat split; try done; by destruct (lastRefreshed old) as [[?|]|].
Qed.

End history_theorems.

(** ** Insights *)



(** ** The chat router with its tables *)



Section chat_anomalies.
Import Sql Analytics.

(** The rows that both anomaly queries order: one per day, with its
    z-score. *)
Lemma anomalies_of_elem (rs : list CleanedRow) (a : AnomalyRow) :
  a ∈ anomalies_of rs
  ↔ a ∈ order_by (λ a b, desc_leb (Rabs <$> a_zscore a) (Rabs <$> a_zscore b))
        (filter (λ _, is_Some (stddev_samp (snd <$> daily_revenue rs)))
           ((λ p : date * option R,
               {| a_date := p.1; a_revenue := p.2;
                  a_zscore := zscore p.2 (avg (snd <$> daily_revenue rs))
                                (stddev_samp (snd <$> daily_revenue rs)) |})
              <$> daily_revenue rs))
    ∧ abs_gt_2 (a_zscore a) = true.
Proof.
  unfold anomalies_of. cbv zeta.
  rewrite !order_by_elem_of, !list_elem_of_filter.
  rewrite andb_True, bool_decide_spec, Is_true_true. tauto.
Qed.

End chat_anomalies.

(** The anomalies table of the chat against [getAnomalies]: a row of the
    table whose z-score exceeds 2 in absolute value is a row of
    [getAnomalies]; a row of [getAnomalies] is missing from the table only
    when the table holds five rows that all exceed 2; the table is ordered
    by decreasing absolute z-score, rows without z-score last; it is empty
    when fewer than two days have a revenue. *)
Theorem chat_anomalies_spec (rs : list CleanedRow) :
  (∀ a, a ∈ Router.anomalies rs → Analytics.abs_gt_2 (a_zscore a) = true →
        a ∈ Analytics.anomalies_of rs)
  ∧ (∀ a, a ∈ Analytics.anomalies_of rs →
        a ∈ Router.anomalies rs
        ∨ (length (Router.anomalies rs) = 5%nat
           ∧ ∀ b, b ∈ Router.anomalies rs → Analytics.abs_gt_2 (a_zscore b) = true))
  ∧ (∀ (i j : nat) a b, (i < j)%nat →
        Router.anomalies rs !! i = Some a → Router.anomalies rs !! j = Some b →
        match a_zscore a, a_zscore b with
        | Some x, Some y => (Rabs y <= Rabs x)%R
        | None, Some _ => False
        | _, None => True
        end)
  ∧ (Sql.stddev_samp (snd <$> Analytics.daily_revenue rs) = None →
     Router.anomalies rs = []).
Proof.
  unfold Router.anomalies. cbv zeta.
  set (key := λ a : AnomalyRow, Rabs <$> a_zscore a).
  set (sd := Sql.stddev_samp (snd <$> Analytics.daily_revenue rs)).
  set (joined := _ <$> Analytics.daily_revenue rs).
  set (S := Sql.order_by _ _).
  assert (∀ a, a ∈ Analytics.anomalies_of rs
               ↔ a ∈ S ∧ Analytics.abs_gt_2 (a_zscore a) = true) as Hfound
    by apply anomalies_of_elem.
  split; [|split; [|split]].
  - intros a Ha Hz. apply Hfound. split; [|done].
    apply elem_of_take in Ha as (i & Hi & _). by eapply list_elem_of_lookup_2.
  - intros a [Ha Hz]%Hfound.
    apply list_elem_of_lookup_1 in Ha as [i Hi].
    destruct (decide (i < 5)%nat) as [Hlt|Hge].
    { left. apply elem_of_take. eauto. }
    right. split.
    { rewrite length_take. apply lookup_lt_Some in Hi. lia. }
    intros b (j & Hj & Hj5)%elem_of_take.
    assert (j < i)%nat as Hji by lia.
    pose proof (desc_sorted_lookup key _ j i b a Hji Hj Hi) as Hord.
    unfold key in Hord. unfold Analytics.abs_gt_2 in *.
    destruct (a_zscore a) as [za|]; [|done].
    destruct (a_zscore b) as [zb|]; [|done].
    cbn in Hord. apply bool_decide_eq_true in Hz. apply bool_decide_eq_true. lra.
  - intros i j a b Hij Ha Hb.
    rewrite lookup_take_Some in Ha, Hb. destruct Ha as [Ha _], Hb as [Hb _].
    pose proof (desc_sorted_lookup key _ i j a b Hij Ha Hb) as Hord.
    unfold key in Hord.
    by destruct (a_zscore a), (a_zscore b).
  - intros Hsd. unfold S. rewrite Hsd. clear. clearbody joined.
    replace (filter _ joined) with (@nil AnomalyRow); [done|].
    induction joined as [|a l IH]; [done|].
    rewrite filter_cons_False; [done|]. by intros [? [=]].
Qed.

Section chat_periods.
Import Sql Calendar Analytics.

Lemma NoDup_fst_inj {A B} (l : list (A * B)) (x y : A * B) :
  NoDup (fst <$> l) → x ∈ l → y ∈ l → x.1 = y.1 → x = y.
Proof.
  induction l as [|z l IH]; [by intros _ ?%elem_of_nil|].
  rewrite fmap_cons, NoDup_cons. intros [Hz Hl] Hx Hy Hxy.
  apply elem_of_cons in Hx as [->|Hx], Hy as [->|Hy]; auto.
  - destruct Hz. rewrite Hxy. by apply list_elem_of_fmap_2.
  - destruct Hz. rewrite <- Hxy. by apply list_elem_of_fmap_2.
Qed.

(** Ordered by descending date or reversed from ascending date, the
    buckets come out the same: their dates are distinct. *)
Lemma buckets_desc_reverse {A B} (trunc : Timestamp → date) (rs : list CleanedRow)
    (val : list CleanedRow → option R)
    (mk1 : date * list CleanedRow → A) (mk2 : date * list CleanedRow → B)
    (d1 : A → date) (d2 : B → date) (v1 : A → option R) (v2 : B → option R) :
  (∀ g, d1 (mk1 g) = g.1 ∧ v1 (mk1 g) = val g.2) →
  (∀ g, d2 (mk2 g) = g.1 ∧ v2 (mk2 g) = val g.2) →
  (λ a, (d1 a, v1 a)) <$> order_by (λ a b, date_leb (d1 b) (d1 a))
                             (mk1 <$> buckets trunc rs)
  = reverse ((λ b, (d2 b, v2 b)) <$> order_by (λ a b, date_leb (d2 a) (d2 b))
                                     (mk2 <$> buckets trunc rs)).
Proof.
  intros H1 H2.
  set (pair := λ g : date * list CleanedRow, (g.1, val g.2)).
  assert ((λ a, (d1 a, v1 a)) <$> order_by (λ a b, date_leb (d1 b) (d1 a))
                                 (mk1 <$> buckets trunc rs)
          ≡ₚ pair <$> buckets trunc rs) as Hp1.
  { rewrite order_by_perm, <- list_fmap_compose.
    erewrite list_fmap_ext; [done|]. intros i g _. cbn.
    unfold pair. by destruct (H1 g) as [-> ->]. }
  assert (reverse ((λ b, (d2 b, v2 b)) <$> order_by (λ a b, date_leb (d2 a) (d2 b))
                                         (mk2 <$> buckets trunc rs))
          ≡ₚ pair <$> buckets trunc rs) as Hp2.
  { rewrite reverse_Permutation, order_by_perm, <- list_fmap_compose.
    erewrite list_fmap_ext; [done|]. intros i g _. cbn.
    unfold pair. by destruct (H2 g) as [-> ->]. }
  assert (NoDup (fst <$> (pair <$> buckets trunc rs))) as Hnd.
  { rewrite <- list_fmap_compose.
    erewrite list_fmap_ext; [apply (buckets_NoDup trunc rs)|]. by intros i g _. }
  set (desc := λ a b : date * option R, date_leb b.1 a.1 = true).
  assert (Transitive desc) as Htrans.
  { intros a b c Hab Hbc. unfold desc in *. by eapply date_leb_trans. }
  apply (Sorted_unique_strong desc).
  - intros x y Hx Hy Hxy Hyx. rewrite Hp1 in Hx. rewrite Hp2 in Hy.
    eapply NoDup_fst_inj; [exact Hnd|done|done|].
    by apply date_leb_antisym.
  - apply StronglySorted_Sorted.
    apply (StronglySorted_fmap _ (λ a b, date_leb (d1 b) (d1 a) = true)); [done|].
    apply order_by_sorted.
    + intros a b. apply date_leb_total.
    + intros a b c Hab Hbc. by eapply date_leb_trans.
  - apply (Sorted_reverse (λ a b : date * option R, date_leb a.1 b.1 = true)).
    apply StronglySorted_Sorted.
    apply (StronglySorted_fmap _ (λ a b, date_leb (d2 a) (d2 b) = true)); [done|].
    apply order_by_sorted.
    + intros a b. apply date_leb_total.
    + intros a b c Hab Hbc. by eapply date_leb_trans.
  - by rewrite Hp1, Hp2.
Qed.

End chat_periods.

(** The month table of the chat holds the last two points of the monthly
    series of [getTimeseries], the latest first, with their revenue; so
    does the year table for the series by year. *)
Theorem chat_periods_spec (rs : list CleanedRow) :
  (λ r, (Router.period r, Router.rev r))
    <$> Router.periods (λ t, Calendar.trunc_month (Calendar.trunc_day t)) rs
  = take 2 (reverse ((λ p, (t_date p, t_revenue p))
                       <$> monthly (Analytics.timeseries_of rs)))
  ∧ (λ r, (Router.period r, Router.rev r))
      <$> Router.periods (λ t, Calendar.trunc_year (Calendar.trunc_day t)) rs
    = take 2 (reverse ((λ p, (t_date p, t_revenue p))
                         <$> Analytics.series
                               (λ t, Calendar.trunc_year (Calendar.trunc_day t)) rs)).
Proof.
  unfold Router.periods, Analytics.timeseries_of, Analytics.series.
  cbn [monthly]. rewrite !fmap_take.
  split; f_equal;
    apply (buckets_desc_reverse _ rs (λ g, Sql.sum (c_revenue <$> g))); by intros g.
Qed.

Section chat_breakdowns.
Import Sql Analytics.

(** A WHERE condition on the grouping key keeps the groups whose key
    passes it as they are. *)
Lemma group_by_filter {A K} `{EqDecision K} (key : A → K) (Q : A → Prop)
    `{∀ x, Decision (Q x)} (l : list A) (k : K) (g : list A) :
  (∀ r, key r = k → Q r) →
  (k, g) ∈ group_by key l → (k, g) ∈ group_by key (filter Q l).
Proof.
  intros Hk [(r & Hr & Hkey) ->]%elem_of_group_by. apply elem_of_group_by. split.
  - exists r. split; [|done]. apply list_elem_of_filter. auto.
  - symmetry. apply list_filter_filter_l. auto.
Qed.

Lemma filter_all {A} (P : A → Prop) `{∀ x, Decision (P x)} (l : list A) :
  (∀ x, x ∈ l → P x) → filter P l = l.
Proof.
  induction l as [|a l IH]; [done|]. intros Hall.
  rewrite filter_cons_True by (apply Hall; apply list_elem_of_here).
  f_equal. apply IH. intros x Hx. apply Hall. by apply list_elem_of_further.
Qed.

End chat_breakdowns.

(** The breakdown tables of the chat against the dashboard: a row of the
    chat's product, channel or place table whose key is not NULL is a row
    of [getProducts] (before its LIMIT), [getChannels] or [getGeo], with
    the same sums; when no row of the relation has a NULL key the table is
    the first five of the dashboard's rows in an order of decreasing
    revenue. *)
Theorem chat_breakdowns_spec (rs : list CleanedRow) :
  (∀ p, p ∈ Router.top_products rs → p_product p ≠ VNull →
        p ∈ Analytics.product_groups rs)
  ∧ (∀ ch, ch ∈ Router.channels rs → ch_channel ch ≠ VNull →
        ch ∈ Analytics.channels_of rs)
  ∧ (∀ g, g ∈ Router.geo rs → g_state g ≠ VNull ∨ g_city g ≠ VNull →
        g ∈ Analytics.geo_of rs)
  ∧ ((∀ r, r ∈ rs → c_product r ≠ VNull) →
     ∃ sorted, sorted ≡ₚ Analytics.product_groups rs
       ∧ StronglySorted (λ a b, Sql.desc_leb (p_revenue a) (p_revenue b) = true) sorted
       ∧ Router.top_products rs = take 5 sorted)
  ∧ ((∀ r, r ∈ rs → c_channel r ≠ VNull) →
     ∃ sorted, sorted ≡ₚ Analytics.channels_of rs
       ∧ StronglySorted (λ a b, Sql.desc_leb (ch_revenue a) (ch_revenue b) = true) sorted
       ∧ Router.channels rs = take 5 sorted)
  ∧ ((∀ r, r ∈ rs → c_state r ≠ VNull ∨ c_city r ≠ VNull) →
     ∃ sorted, sorted ≡ₚ Analytics.geo_of rs
       ∧ StronglySorted (λ a b, Sql.desc_leb (g_revenue a) (g_revenue b) = true) sorted
       ∧ Router.geo rs = take 5 sorted).
Proof.
  unfold Router.top_products, Router.channels, Router.geo, Analytics.products_of,
    Analytics.product_groups, Analytics.channels_of, Analytics.geo_of,
    Sql.limit_offset.
  split; [|split; [|split; [|split; [|split]]]].
  - intros p (i & Hp & _)%elem_of_take Hkey.
    apply list_elem_of_lookup_2, order_by_elem_of, list_elem_of_fmap in Hp
      as ([k g] & -> & Hg).
    apply list_elem_of_fmap. exists (k, g). split; [done|].
    apply group_by_filter; [|done]. by intros r ->.
  - intros p (i & Hp & _)%elem_of_take Hkey.
    apply list_elem_of_lookup_2, order_by_elem_of, list_elem_of_fmap in Hp
      as ([k g] & -> & Hg).
    apply order_by_elem_of, list_elem_of_fmap. exists (k, g). split; [done|].
    apply group_by_filter; [|done]. by intros r ->.
  - intros p (i & Hp & _)%elem_of_take Hkey.
    apply list_elem_of_lookup_2, order_by_elem_of, list_elem_of_fmap in Hp
      as ([[s c] g] & -> & Hg).
    apply order_by_elem_of, list_elem_of_fmap. exists ((s, c), g). split; [done|].
    apply group_by_filter; [|done]. by intros r [= -> ->].
  - intros Hall. eexists. split; [apply order_by_perm|]. split; [|by rewrite filter_all].
    apply order_by_sorted.
    + intros a b. apply desc_leb_total.
    + intros a b c. apply desc_leb_trans.
  - intros Hall. eexists. split; [reflexivity|]. split; [|by rewrite filter_all].
    apply order_by_sorted.
    + intros a b. apply desc_leb_total.
    + intros a b c. apply desc_leb_trans.
  - intros Hall. eexists. split; [reflexivity|]. split; [|by rewrite filter_all].
    apply order_by_sorted.
    + intros a b. apply desc_leb_total.
    + intros a b c. apply desc_leb_trans.
Qed.

(** ** Display helpers *)

Section display.
Import Display.

Lemma max_of_le (x : R) (xs : list R) : (x <= max_of x xs)%R.
Proof.
  unfold max_of. revert x. induction xs as [|y xs IH]; intros x; cbn; [lra|].
  etransitivity; [|apply IH]. apply Rmax_l.
Qed.

Lemma max_of_ge (x : R) (xs : list R) (y : R) :
  y ∈ x :: xs → (y <= max_of x xs)%R.
Proof.
  unfold max_of. revert x. induction xs as [|z xs IH]; intros x.
  - intros ->%list_elem_of_singleton. cbn. lra.
  - cbn. intros Hy. apply elem_of_cons in Hy as [Hy|Hy].
    { subst y. etransitivity; [apply Rmax_l|apply max_of_le]. }
    apply elem_of_cons in Hy as [Hy|Hy].
    { subst y. etransitivity; [apply Rmax_r|apply max_of_le]. }
    apply IH. by apply list_elem_of_further.
Qed.

Lemma max_of_elem (x : R) (xs : list R) : max_of x xs ∈ x :: xs.
Proof.
  unfold max_of. revert x. induction xs as [|z xs IH]; intros x; cbn.
  - apply list_elem_of_here.
  - pose proof (IH (Rmax x z)) as Hin. apply elem_of_cons in Hin as [Heq|Hin].
    + rewrite Heq. unfold Rmax. destruct (Rle_dec x z).
      * apply list_elem_of_further, list_elem_of_here.
      * apply list_elem_of_here.
    + by do 2 apply list_elem_of_further.
Qed.

Lemma round_100 : round (100 : R) = 100%Z.
Proof. unfold round. apply Zfloor_eq. lra. Qed.

(** The maximum that [barWidth] computes bounds the revenue of every row
    and is the revenue of one of them, NULL counting as 0. *)
Lemma max_of_rows (r : ProductRow) (rs : list ProductRow) :
  let m := max_of (default 0%R (p_revenue r))
             ((λ r, default 0%R (p_revenue r)) <$> rs) in
  (∀ q, q ∈ r :: rs → (default 0 (p_revenue q) <= m)%R)
  ∧ ∃ q, q ∈ r :: rs ∧ m = default 0%R (p_revenue q).
Proof.
  intros m. unfold m. set (revs := (λ r, default 0%R (p_revenue r)) <$> rs). split.
  - intros q Hq. apply max_of_ge.
    apply elem_of_cons in Hq as [->|Hq]; [apply list_elem_of_here|].
    apply list_elem_of_further. unfold revs.
    by apply (list_elem_of_fmap_2 (λ r, default 0%R (p_revenue r))).
  - pose proof (max_of_elem (default 0%R (p_revenue r)) revs) as Hin.
    apply elem_of_cons in Hin as [Hin|Hin].
    + exists r. split; [apply list_elem_of_here|done].
    + apply list_elem_of_fmap in Hin as (q & Hq & Hin).
      exists q. split; [by apply list_elem_of_further|done].
Qed.

Lemma barWidth_max (rows : list ProductRow) (p : ProductRow) (v : R) :
  p ∈ rows → p_revenue p = Some v → (0 < v)%R →
  (∀ q, q ∈ rows → (default 0 (p_revenue q) <= v)%R) →
  barWidth (Some v) (Some rows) = 100%Z.
Proof.
  destruct rows as [|r rs]; [by intros ?%elem_of_nil|].
  intros Hp Hrev Hv Hmax. unfold barWidth.
  destruct (max_of_rows r rs) as [Hge (qm & Hqm & Hm)]. cbv zeta in *.
  set (m := max_of _ _) in *.
  assert (m = v) as ->.
  { apply Rle_antisym.
    - rewrite Hm. by apply Hmax.
    - specialize (Hge p Hp). rewrite Hrev in Hge. exact Hge. }
  destruct (decide (v <= 0)%R); [lra|].
  replace (v / v * 100)%R with 100%R by (field; lra).
  rewrite round_100. lia.
Qed.

End display.

(** The revenue bars: no bar is wider than 100; a bar of a revenue that is
    not negative is not negative; the bar of a row whose revenue is
    positive and the largest of the rows is 100; a larger revenue never
    gets a narrower bar; when no row has a positive revenue every bar
    is 0. *)
Theorem barWidth_spec (rows : list ProductRow) :
  (∀ value, (Display.barWidth value (Some rows) <= 100)%Z)
  ∧ (∀ v, (0 <= v)%R → (0 <= Display.barWidth (Some v) (Some rows))%Z)
  ∧ (∀ p v, p ∈ rows → p_revenue p = Some v → (0 < v)%R →
       (∀ q, q ∈ rows → (default 0 (p_revenue q) <= v)%R) →
       Display.barWidth (Some v) (Some rows) = 100%Z)
  ∧ (∀ v w, (v <= w)%R →
       (Display.barWidth (Some v) (Some rows) <= Display.barWidth (Some w) (Some rows))%Z)
  ∧ ((∀ q, q ∈ rows → (default 0 (p_revenue q) <= 0)%R) →
     ∀ value, Display.barWidth value (Some rows) = 0%Z).
Proof.
  destruct rows as [|r rs].
  { split; [intros [v|]; cbn; lia|]. split; [intros v _; cbn; lia|].
    split; [by intros p v ?%elem_of_nil|]. split; [intros v w _; cbn; lia|].
    by intros _ [v|]. }
  unfold Display.barWidth.
  destruct (max_of_rows r rs) as [Hge (qm & Hqm & Hm)]. cbv zeta in *.
  set (m := Display.max_of _ _) in *.
  split; [|split; [|split; [|split]]].
  - intros [v|]; [|lia]. destruct (decide (m <= 0)%R); lia.
  - intros v Hv. destruct (decide (m <= 0)%R) as [|Hm0]; [lia|].
    apply Z.min_glb; [lia|]. unfold Display.round. apply Zfloor_lub.
    assert (0 <= v / m)%R.
    { unfold Rdiv. apply Rmult_le_pos; [lra|]. left. apply Rinv_0_lt_compat. lra. }
    change (IZR 0) with 0%R. lra.
  - intros p v. apply barWidth_max.
  - intros v w Hvw. destruct (decide (m <= 0)%R) as [|Hm0]; [lia|].
    apply Z.min_le_compat_l. unfold Display.round. apply Zfloor_le.
    assert (v / m <= w / m)%R.
    { unfold Rdiv. apply Rmult_le_compat_r; [|done].
      left. apply Rinv_0_lt_compat. lra. }
    lra.
  - intros Hall [v|]; [|done].
    destruct (decide (m <= 0)%R) as [|Hm0]; [done|].
    destruct Hm0. rewrite Hm. by apply Hall.
Qed.

(** On the dashboard the bar of the first product is full: in the list
    that [runAggregates] shows, cut from [getProducts] by descending
    revenue, the first row gets the width 100 when its revenue is
    positive. *)
Theorem barWidth_top_product (n o : nat) (rs : list CleanedRow) (p : ProductRow)
    (v : R) :
  take 50 (Analytics.products_of n o desc rs) !! 0%nat = Some p →
  p_revenue p = Some v → (0 < v)%R →
  Display.barWidth (Some v) (Some (take 50 (Analytics.products_of n o desc rs)))
  = 100%Z.
Proof.
  intros Hp Hrev Hv. apply (barWidth_max _ p); [by eapply list_elem_of_lookup_2|done..|].
  intros q [j Hq]%list_elem_of_lookup_1.
  destruct j as [|j].
  { rewrite Hp in Hq. injection Hq as <-. rewrite Hrev. cbn. lra. }
  unfold Analytics.products_of, Sql.limit_offset in Hp, Hq.
  rewrite lookup_take_Some in Hp, Hq. destruct Hp as [Hp _], Hq as [Hq _].
  rewrite lookup_take_Some in Hp, Hq. destruct Hp as [Hp _], Hq as [Hq _].
  rewrite lookup_drop in Hp, Hq.
  assert (o + 0 < o + S j)%nat as Hlt by lia.
  pose proof (desc_sorted_lookup p_revenue _ _ _ p q Hlt Hp Hq) as Hord.
  rewrite Hrev in Hord. destruct (p_revenue q); cbn; [done|lra].
Qed.

Lemma barWidth_top_product_witness :
  Display.barWidth (Some (50 * 2 + 0)%R)
    (Some (take 50 (Analytics.products_of 10 0 desc Demo.order_rows)))
  = 100%Z.
Proof.
  apply (barWidth_top_product 10 0 Demo.order_rows
           {| p_product := VText "tea"; p_revenue := Some (50 * 2 + 0)%R;
              p_quantity := Some (2 + 0)%R |}).
  - rewrite (proj1 order_products). reflexivity.
  - reflexivity.
  - lra.
Defined.

(** ** Growth figures of the summary *)

Section growth.
Import Sql Js Calendar Analytics.


(** [SUM(CASE WHEN cond THEN rev ELSE 0 END)], NULL read as 0, is the
    revenue of the days that satisfy [cond]. *)
Lemma case_sum_default (cond : date → bool) (days : list (date * option R)) :
  default 0%R (case_sum cond days) = GrowthSpec.bucket_total cond days.
Proof.
  unfold case_sum, GrowthSpec.bucket_total. rewrite sum_default.
  induction days as [|[d x] days IH]; [done|].
  rewrite fmap_cons, Rsum_non_null_cons, IH. cbn [fst snd].
  destruct (cond d) eqn:E.
  - rewrite filter_cons_True by (cbn; rewrite E; exact I).
    by rewrite fmap_cons, Rsum_non_null_cons.
  - rewrite filter_cons_False by (cbn; rewrite E; intros []). cbn. lra.
Qed.

(** The JavaScript guard [prev && prev !== 0] lets the quotient through
    exactly when the previous figure is a number other than 0. *)
Lemma growthPct_growth (this prev : option R) :
  growthPct this prev = GrowthSpec.growth (default 0%R this) (default 0%R prev).
Proof.
  unfold growthPct, GrowthSpec.growth, truthy_num, not_zero.
  destruct prev as [p|]; cbn.
  - destruct (decide (p = 0%R)) as [->|Hp].
    + by rewrite bool_decide_eq_true_2.
    + by rewrite bool_decide_eq_false_2.
  - by destruct (decide (0%R = 0%R)).
Qed.







(** The summary has a date as soon as one row has a timestamp. *)
Lemma hasDate_true (rs : list CleanedRow) (r : CleanedRow) :
  r ∈ rs → is_Some (c_ts r) → is_Some (min_ts (c_ts <$> rs)).
Proof.
  intros Hr Hts. pose proof (min_max_ts_spec (c_ts <$> rs)) as Hmm.
  destruct (min_ts (c_ts <$> rs)); [by eexists|].
  destruct (max_ts (c_ts <$> rs)); [done|].
  rewrite (Hmm (c_ts r)) in Hts by by apply list_elem_of_fmap_2.
  by destruct Hts.
Qed.

End growth.





Lemma forecast_daily :
  Analytics.daily_revenue (Demo.revenue_rows Demo.forecast)
  = [({| year := 2024; month := 2; day := 10 |}, Some (100 + 0)%R);
     ({| year := 2024; month := 3; day := 10 |}, Some (50 + 0)%R);
     ({| year := 2024; month := 4; day := 10 |}, Some (30 + 0)%R)].
Proof. reflexivity. Qed.

(** Seen from mid-March, with revenue 100 in February, 50 in March and 30
    in April, the summary reports a month-over-month growth of -20 percent:
    April counts with March.  Between the calendar months it is -50
    percent. *)
Example forecast_growth :
  momGrowthPct (Analytics.summary_of Demo.mid_march (Demo.revenue_rows Demo.forecast))
  = Some (- (1 / 5))%R
  ∧ GrowthSpec.momGrowthPct Demo.mid_march (Demo.revenue_rows Demo.forecast)
    = Some (- (1 / 2))%R.
Proof.
  unfold Analytics.summary_of. cbn [momGrowthPct].
  rewrite bool_decide_eq_true_2.
  2:{ eapply hasDate_true; [apply list_elem_of_here|by eexists]. }
  rewrite growthPct_growth, !case_sum_default.
  unfold GrowthSpec.momGrowthPct, GrowthSpec.month_revenue, GrowthSpec.bucket_total.
  rewrite forecast_daily.
  split.
  - rewrite filter_cons_False by (vm_compute; intros []).
    rewrite filter_cons_True by (vm_compute; exact I).
    rewrite filter_cons_True by (vm_compute; exact I).
    rewrite filter_cons_True by (vm_compute; exact I).
    rewrite filter_cons_False by (vm_compute; intros []).
    rewrite filter_cons_False by (vm_compute; intros []).
    cbn [fmap list_fmap snd Sql.non_null omap list_omap Sql.Rsum foldr filter
         list_filter].
    unfold GrowthSpec.growth. destruct (decide _) as [E|_]; [lra|].
    f_equal. field.
  - rewrite filter_cons_False by (vm_compute; intros []).
    rewrite filter_cons_True by (vm_compute; exact I).
    rewrite filter_cons_False by (vm_compute; intros []).
    rewrite filter_cons_True by (vm_compute; exact I).
    rewrite filter_cons_False by (vm_compute; intros []).
    rewrite filter_cons_False by (vm_compute; intros []).
    cbn [fmap list_fmap snd Sql.non_null omap list_omap Sql.Rsum foldr filter
         list_filter].
    unfold GrowthSpec.growth. destruct (decide _) as [E|_]; [lra|].
    f_equal. field.
Qed.

(** ** Routing the trimmed chat input *)

Section trimmed.

Lemma prefix_space (n : string) (c : ascii) (t : string) :
  n ≠ EmptyString → no_space n = true → is_space c = true →
  String.prefix n (String c t) = false.
Proof.
  destruct n as [|a n]; [done|]. intros _ Hn Hc. cbn in Hn |- *.
  apply andb_true_iff in Hn as [Ha _].
  destruct (Ascii.ascii_dec a c) as [->|Hac]; [|done].
  by rewrite Hc in Ha.
Qed.

Lemma includes_trimStart (n s : string) :
  n ≠ EmptyString → no_space n = true →
  includes n (trimStart s) = includes n s.
Proof.
  intros Hne Hn. induction s as [|c t IH]; [done|].
  cbn [trimStart]. destruct (is_space c) eqn:Hc; [|done].
  rewrite IH, (includes_cons n c t). by rewrite prefix_space.
Qed.

Lemma prefix_trimEnd (n s : string) :
  no_space n = true → String.prefix n (trimEnd s) = String.prefix n s.
Proof.
  revert n. induction s as [|c t IH]; intros n Hn; [done|].
  destruct n as [|a n]; [by destruct (trimEnd (String c t))|].
  cbn in Hn. apply andb_true_iff in Hn as [Ha Hn].
  specialize (IH n Hn). cbn [trimEnd].
  destruct (trimEnd t) as [|c' t'] eqn:Et.
  - destruct (is_space c) eqn:Hc.
    + cbn. destruct (Ascii.ascii_dec a c) as [->|]; [|done].
      by rewrite Hc in Ha.
    + cbn. destruct (Ascii.ascii_dec a c); [|done]. exact IH.
  - cbn. destruct (Ascii.ascii_dec a c); [|done]. exact IH.
Qed.

Lemma includes_nil (n : string) : n ≠ EmptyString → includes n EmptyString = false.
Proof. by destruct n. Qed.

Lemma includes_trimEnd (n s : string) :
  n ≠ EmptyString → no_space n = true →
  includes n (trimEnd s) = includes n s.
Proof.
  intros Hne Hn. induction s as [|c t IH]; [done|].
  pose proof (prefix_trimEnd n (String c t) Hn) as Hp.
  rewrite (includes_cons n c t), <- IH, <- Hp. cbn [trimEnd].
  destruct (trimEnd t) as [|c' t'] eqn:Et.
  - destruct (is_space c) eqn:Hc.
    + rewrite includes_nil by done. by destruct n.
    + rewrite (includes_cons n c EmptyString). done.
  - by rewrite (includes_cons n c (String c' t')).
Qed.

Lemma includes_trim (n s : string) :
  n ≠ EmptyString → no_space n = true → includes n (trim s) = includes n s.
Proof.
  intros Hne Hn. unfold trim. by rewrite includes_trimEnd, includes_trimStart.
Qed.

End trimmed.

(** [runChat] routes the trimmed input: white space around the question
    changes neither the template nor the table of the answer. *)
Theorem routeChatQuestion_trim `{Engine} (c : Conn) (agg : Insights.AggView)
    (chatInput : string) :
  Router.routeChatQuestion c agg (trim chatInput)
  = Router.routeChatQuestion c agg chatInput
  ∧ Chat.route_template (trim chatInput) = Chat.route_template chatInput.
Proof.
  unfold Router.routeChatQuestion, Chat.route_template. cbv zeta.
  rewrite toLowerCase_trim. by rewrite !includes_trim.
Qed.

(** ** Mapped columns of the view *)

Section mapped_columns.
Context `{Engine}.
Import Sql Js.

Lemma eval_row_mapped (cols : list string) (mapping : ColumnMap) (raw : list Value) :
  let r := Cleaned.eval_row cols (Cleaned.select_list mapping) raw in
  (∀ col, Cleaned.mapped mapping "order_id" = Some col → c_order_id r = cell cols raw col)
  ∧ (∀ col, Cleaned.mapped mapping "product" = Some col → c_product r = cell cols raw col)
  ∧ (∀ col, Cleaned.mapped mapping "channel" = Some col → c_channel r = cell cols raw col)
  ∧ (∀ col, Cleaned.mapped mapping "city" = Some col → c_city r = cell cols raw col)
  ∧ (∀ col, Cleaned.mapped mapping "state" = Some col → c_state r = cell cols raw col)
  ∧ (∀ col, Cleaned.mapped mapping "zip" = Some col → c_zip r = cell cols raw col)
  ∧ (∀ col, Cleaned.mapped mapping "quantity" = Some col →
            c_quantity r = try_cast_double (cell cols raw col))
  ∧ (∀ col, Cleaned.mapped mapping "price" = Some col →
            c_price r = try_cast_double (cell cols raw col)).
Proof.
  unfold Cleaned.eval_row, Cleaned.select_list, Cleaned.mapped, truthy_opt, Cleaned.qi.
  cbn [c_order_id c_product c_quantity c_price c_channel c_city c_state c_zip
       v_order_id v_product v_quantity v_price v_channel v_city v_state v_zip].
  repeat split; intros col;
    match goal with
    | |- context [mapping !! ?k] => destruct (mapping !! k) as [s|]
    end; try done; destruct (truthy s); try done; intros [= ->]; cbn [eval];
    by rewrite ?as_double_of_double.
Qed.

End mapped_columns.

(** The view has one row per row of the table, in the same order, whatever
    the cells hold.  In each row the mapped columns order_id, product,
    channel, city, state and zip are the cells of the table as they are,
    without any cast; quantity and price are the safe casts of their cells
    to DOUBLE. *)
Theorem cleaned_mapped_columns `{Engine} (mapping : ColumnMap) (c c' : Conn)
    (i : nat) (raw : list Value) :
  Cleaned.materializeCleanedView c mapping = Some c' →
  rows (data c) !! i = Some raw →
  ∃ rs r,
    Cleaned.scan c' = Some rs
    ∧ length rs = length (rows (data c))
    ∧ rs !! i = Some r
    ∧ (∀ col, Cleaned.mapped mapping "order_id" = Some col →
              c_order_id r = Sql.cell (columns (data c)) raw col)
    ∧ (∀ col, Cleaned.mapped mapping "product" = Some col →
              c_product r = Sql.cell (columns (data c)) raw col)
    ∧ (∀ col, Cleaned.mapped mapping "channel" = Some col →
              c_channel r = Sql.cell (columns (data c)) raw col)
    ∧ (∀ col, Cleaned.mapped mapping "city" = Some col →
              c_city r = Sql.cell (columns (data c)) raw col)
    ∧ (∀ col, Cleaned.mapped mapping "state" = Some col →
              c_state r = Sql.cell (columns (data c)) raw col)
    ∧ (∀ col, Cleaned.mapped mapping "zip" = Some col →
              c_zip r = Sql.cell (columns (data c)) raw col)
    ∧ (∀ col, Cleaned.mapped mapping "quantity" = Some col →
              c_quantity r = try_cast_double (Sql.cell (columns (data c)) raw col))
    ∧ (∀ col, Cleaned.mapped mapping "price" = Some col →
              c_price r = try_cast_double (Sql.cell (columns (data c)) raw col)).
Proof.
  intros Hm Hi.
  destruct (scan_materialized_lookup c c' mapping i raw Hm Hi) as (rs & Hs & Hl & Hr).
  exists rs, (Cleaned.eval_row (columns (data c)) (Cleaned.select_list mapping) raw).
  split; [done|]. split; [done|]. split; [done|].
  apply (eval_row_mapped (columns (data c)) mapping raw).
Qed.

Lemma cleaned_mapped_columns_witness :
  ∃ rs r,
    Cleaned.scan (H := Demo.engine)
      {| data := Demo.orders;
         cleaned := Some (Cleaned.select_list Demo.order_map) |} = Some rs
    ∧ length rs = 3%nat
    ∧ rs !! 2%nat = Some r
    ∧ (∀ col, Cleaned.mapped Demo.order_map "product" = Some col →
              c_product r
              = Sql.cell Demo.order_columns
                  [VText "A-3"; VText "tea"; VText "soon"; VText "many"; VNumber 7;
                   VNull] col).
Proof.
  destruct (cleaned_mapped_columns (H := Demo.engine) Demo.order_map
              (Demo.fresh Demo.orders)
              {| data := Demo.orders;
                 cleaned := Some (Cleaned.select_list Demo.order_map) |} 2
              [VText "A-3"; VText "tea"; VText "soon"; VText "many"; VNumber 7; VNull])
    as (rs & r & Hs & Hl & Hr & _ & Hp & _); [reflexivity..|].
  exists rs, r. split; [exact Hs|]. split; [exact Hl|]. split; [exact Hr|exact Hp].
Defined.
